(** * Firmament: label selectors and node affinity (scheduling/label_utils.cc)

    A shallow embedding of the label-matching predicates of Firmament's
    scheduler, and the properties the specification states about them.

    Conventions of the embedding:
    - protobuf messages are records; a [repeated] field is a [list], a
      message-typed field with a [has_x()] accessor is an [option];
    - a protobuf enum field holds an integer, so [LabelSelector.type] is a
      [Z] and the enumerators are names for 0, 1, 2, 3;
    - [unordered_map<string, string>] is [gmap string string] and
      [unordered_set<string>] is [gset string];
    - [LOG(FATAL)] ends the process: a call either returns a value or is
      fatal, which is the [outcome] type below. *)

From Stdlib Require Import ZArith.
From stdpp Require Import gmap strings list fin_maps.

Local Open Scope Z_scope.

(** ** Outcomes: a returned value, or a fatal log line *)

Inductive outcome (A : Type) : Type :=
  | Returns (a : A)
  | Fatal (unsupported : Z).
Arguments Returns {A} a.
Arguments Fatal {A} unsupported.

(** Sequencing: a fatal call ends the caller too. With these instances the
    code below reads [x ← c; k]. *)
#[global] Instance outcome_ret : MRet outcome := @Returns.
#[global] Instance outcome_bind : MBind outcome := fun A B k c =>
  match c with
  | Returns a => k a
  | Fatal t => Fatal t
  end.

(** ** misc/map-util.h

    The header is not part of the sources at hand; the three helpers the
    file calls are modelled by the contract their names state (they are the
    usual map utilities over the standard containers). *)
Module MapUtil.

(** [InsertIfNotPresent(&m, k, v)]: binds [k] to [v] when [k] has no
    binding and reports whether it did; an existing binding is kept. The
    updated collection is returned next to the flag. *)
Definition InsertIfNotPresent (collection : gmap string string)
    (key value : string) : gmap string string * bool :=
  match collection !! key with
  | Some _ => (collection, false)
  | None => (<[key := value]> collection, true)
  end.

(** [FindOrNull(m, k)]: a pointer to the value bound to [k], or NULL. *)
Definition FindOrNull (collection : gmap string string) (key : string)
    : option string :=
  collection !! key.

(** [ContainsKey(m, k)]. *)
Definition ContainsKey (collection : gmap string string) (key : string)
    : bool :=
  bool_decide (is_Some (collection !! key)).

End MapUtil.
Import MapUtil.

(** ** Messages *)

Module Label.
Record t := mk { key : string; value : string }.
End Label.

Module ResourceDescriptor.
Record t := mk { labels : list Label.t }.
End ResourceDescriptor.

(** Modelled from the spec: the enumeration [LabelSelector::SelectorType]
  is declared in a .proto file that is not part of the sources; the
  numbering follows the operator table of the data model ("In" is index 0,
  then NotIn, Exists, DoesNotExist in the order the source assigns 1, 2
  and 3). *)
Abbreviation IN_SET := 0%Z (only parsing).
Abbreviation NOT_IN_SET := 1%Z (only parsing).
Abbreviation EXISTS_KEY := 2%Z (only parsing).
Abbreviation NOT_EXISTS_KEY := 3%Z (only parsing).

Module LabelSelector.
Record t := mk { type : Z; key : string; values : list string }.
End LabelSelector.

Module NodeSelectorRequirement.
Record t := mk { key : string; operator_ : string; values : list string }.
End NodeSelectorRequirement.

Module NodeSelectorTerm.
Record t := mk { matchexpressions : list NodeSelectorRequirement.t }.
End NodeSelectorTerm.

Module NodeSelector.
Record t := mk { nodeselectorterms : list NodeSelectorTerm.t }.
End NodeSelector.

Module NodeAffinity.
Record t := mk {
  requiredduringschedulingignoredduringexecution : option NodeSelector.t
}.
End NodeAffinity.

Module Affinity.
Record t := mk { node_affinity : option NodeAffinity.t }.
End Affinity.

Module TaskDescriptor.
Record t := mk {
  label_selectors : list LabelSelector.t;
  affinity : option Affinity.t
}.
End TaskDescriptor.

(** The kinds of the closed enumeration, as a predicate on selectors. *)
Definition known_type (selector : LabelSelector.t) : Prop :=
  LabelSelector.type selector = IN_SET
  ∨ LabelSelector.type selector = NOT_IN_SET
  ∨ LabelSelector.type selector = EXISTS_KEY
  ∨ LabelSelector.type selector = NOT_EXISTS_KEY.

(** ** SatisfiesLabelSelector, the three overloads *)

(** [SatisfiesLabelSelector(rd_labels, selector_values, selector)]. *)
Definition SatisfiesLabelSelector (rd_labels : gmap string string)
    (selector_values : gset string) (selector : LabelSelector.t)
    : outcome bool :=
  match LabelSelector.type selector with
  | IN_SET =>
      match FindOrNull rd_labels (LabelSelector.key selector) with
      | Some value =>
          if bool_decide (value ∈ selector_values) then Returns true
          else Returns false
      | None => Returns false
      end
  | NOT_IN_SET =>
      match FindOrNull rd_labels (LabelSelector.key selector) with
      | Some value =>
          if bool_decide (value ∈ selector_values) then Returns false
          else Returns true
      | None => Returns true
      end
  | EXISTS_KEY => Returns (ContainsKey rd_labels (LabelSelector.key selector))
  | NOT_EXISTS_KEY =>
      Returns (negb (ContainsKey rd_labels (LabelSelector.key selector)))
  | unknown => Fatal unknown
  end.

(** The set filled by the loop [selector_values.insert(value)]. *)
Definition selector_values_of (values : list string) : gset string :=
  foldl (fun selector_values value => {[ value ]} ∪ selector_values) ∅ values.

(** [SatisfiesLabelSelector(rd_labels, selector)]. *)
Definition SatisfiesLabelSelector_map (rd_labels : gmap string string)
    (selector : LabelSelector.t) : outcome bool :=
  SatisfiesLabelSelector rd_labels
    (selector_values_of (LabelSelector.values selector)) selector.

(** One step of the loop over [rd.labels()]; the flag InsertIfNotPresent
    returns is dropped, as in the source. *)
Definition insert_label (rd_labels : gmap string string) (label : Label.t)
    : gmap string string :=
  fst (InsertIfNotPresent rd_labels (Label.key label) (Label.value label)).

(** The map filled by that loop, the same in [SatisfiesLabelSelectors] and
    in the descriptor overload. *)
Definition rd_labels_of (rd : ResourceDescriptor.t) : gmap string string :=
  foldl insert_label ∅ (ResourceDescriptor.labels rd).

(** [SatisfiesLabelSelector(rd, selector)]. *)
Definition SatisfiesLabelSelector_rd (rd : ResourceDescriptor.t)
    (selector : LabelSelector.t) : outcome bool :=
  SatisfiesLabelSelector_map (rd_labels_of rd) selector.

(** ** SatisfiesLabelSelectors *)

Fixpoint SatisfiesLabelSelectors_loop (rd_labels : gmap string string)
    (selectors : list LabelSelector.t) : outcome bool :=
  match selectors with
  | [] => Returns true
  | selector :: rest =>
      ok ← SatisfiesLabelSelector_map rd_labels selector;
      if negb ok then Returns false
      else SatisfiesLabelSelectors_loop rd_labels rest
  end.

Definition SatisfiesLabelSelectors (rd : ResourceDescriptor.t)
    (selectors : list LabelSelector.t) : outcome bool :=
  SatisfiesLabelSelectors_loop (rd_labels_of rd) selectors.

(** ** NodeSelectorRequirementsAsLabelSelectors *)

(** The body of the loop: the selector built from one requirement. [type]
    starts at 0 and is only reassigned by a recognised operator name. *)
Definition selector_of_requirement (nsm : NodeSelectorRequirement.t)
    : LabelSelector.t :=
  let type := 0 in
  let operator_type := NodeSelectorRequirement.operator_ nsm in
  let type :=
    if String.eqb operator_type "In" then 0
    else if String.eqb operator_type "NotIn" then 1
    else if String.eqb operator_type "Exists" then 2
    else if String.eqb operator_type "DoesNotExist" then 3
    else type in
  let values :=
    foldl (fun values value => values ++ [value]) []
          (NodeSelectorRequirement.values nsm) in
  LabelSelector.mk type (NodeSelectorRequirement.key nsm) values.

(** [td.add_label_selectors()] appends to the scratch task descriptor, whose
    selector list is returned. *)
Definition NodeSelectorRequirementsAsLabelSelectors
    (matchExpressions : list NodeSelectorRequirement.t)
    : list LabelSelector.t :=
  foldl (fun td_label_selectors nsm =>
           td_label_selectors ++ [selector_of_requirement nsm])
        [] matchExpressions.

(** ** Node selector terms *)

Definition SatisfiesMatchExpressions (rd : ResourceDescriptor.t)
    (matchExpressions : list NodeSelectorRequirement.t) : outcome bool :=
  let selectors := NodeSelectorRequirementsAsLabelSelectors matchExpressions in
  SatisfiesLabelSelectors rd selectors.

Definition NodeMatchesNodeSelectorTerm (rd : ResourceDescriptor.t)
    (nodeSelectorTerm : NodeSelectorTerm.t) : outcome bool :=
  if bool_decide (length (NodeSelectorTerm.matchexpressions nodeSelectorTerm) = 0%nat)
  then Returns false
  else SatisfiesMatchExpressions rd
         (NodeSelectorTerm.matchexpressions nodeSelectorTerm).

Fixpoint NodeMatchesNodeSelectorTerms (rd : ResourceDescriptor.t)
    (nodeSelectorTerms : list NodeSelectorTerm.t) : outcome bool :=
  match nodeSelectorTerms with
  | [] => Returns false
  | req :: rest =>
      if bool_decide (length (NodeSelectorTerm.matchexpressions req) = 0%nat)
      then NodeMatchesNodeSelectorTerms rd rest
      else
        ok ← SatisfiesMatchExpressions rd (NodeSelectorTerm.matchexpressions req);
        if negb ok then NodeMatchesNodeSelectorTerms rd rest
        else Returns true
  end.

(** ** SatisfiesNodeSelectorAndNodeAffinity *)

Definition SatisfiesNodeSelectorAndNodeAffinity (rd : ResourceDescriptor.t)
    (td : TaskDescriptor.t) : outcome bool :=
  selectors_ok ←
    (if bool_decide (length (TaskDescriptor.label_selectors td) ≠ 0%nat)
     then SatisfiesLabelSelectors rd (TaskDescriptor.label_selectors td)
     else Returns true);
  if negb selectors_ok then Returns false
  else
    let nodeAffinityMatches := true in
    match TaskDescriptor.affinity td with
    | Some affinity =>
        match Affinity.node_affinity affinity with
        | Some node_affinity =>
            match NodeAffinity.requiredduringschedulingignoredduringexecution
                    node_affinity with
            | Some required =>
                let nodeSelectorTerms := NodeSelector.nodeselectorterms required in
                if bool_decide (length nodeSelectorTerms ≠ 0%nat)
                then
                  matches ← NodeMatchesNodeSelectorTerms rd nodeSelectorTerms;
                  Returns (nodeAffinityMatches && matches)
                else Returns nodeAffinityMatches
            | None =>
                (* no required NodeAffinity requirements: select all nodes *)
                Returns true
            end
        | None => Returns nodeAffinityMatches
        end
    | None => Returns nodeAffinityMatches
    end.

(** ** HashSelectors

    [HashString] (misc/utils.h) and [boost::hash_combine] are not part of the
    sources; the function is embedded over any pair of them, [size_t] values
    being integers. *)
Section Hashing.
Variable HashString : string → Z.
Variable hash_combine : Z → Z → Z.

Definition HashSelectors (selectors : list LabelSelector.t) : Z :=
  foldl (fun seed label_selector =>
           let seed := hash_combine seed (HashString (LabelSelector.key label_selector)) in
           foldl (fun seed value => hash_combine seed (HashString value))
                 seed (LabelSelector.values label_selector))
        0 selectors.
End Hashing.

(** A concrete pair to run [HashSelectors] on: the combiner of Boost's
    functional/hash for a 64-bit [size_t],
    [seed ^= h + 0x9e3779b9 + (seed << 6) + (seed >> 2)], and a polynomial
    string hash standing for [HashString]. *)
Definition size_t_wrap (n : Z) : Z := n mod 2 ^ 64.

Definition boost_hash_combine (seed h : Z) : Z :=
  Z.lxor seed
    (size_t_wrap (h + 0x9e3779b9 + size_t_wrap (Z.shiftl seed 6) + Z.shiftr seed 2)).

Fixpoint poly_hash_from (h : Z) (s : string) : Z :=
  match s with
  | EmptyString => h
  | String c s' =>
      poly_hash_from (size_t_wrap (h * 31 + Z.of_nat (Ascii.nat_of_ascii c))) s'
  end.

Definition poly_hash_string (s : string) : Z := poly_hash_from 0 s.

(** * Properties *)

(** ** Auxiliary facts about the loops *)

Lemma elem_of_selector_values_loop (values : list string) (acc : gset string)
    (v : string) :
  v ∈ foldl (fun selector_values value => {[ value ]} ∪ selector_values) acc values
  ↔ v ∈ acc ∨ v ∈ values.
Proof.
  revert acc. induction values as [|w values IH]; intros acc; simpl.
  - rewrite elem_of_nil. tauto.
  - rewrite IH, elem_of_union, elem_of_singleton, elem_of_cons. tauto.
Qed.

Lemma elem_of_selector_values_of (values : list string) (v : string) :
  v ∈ selector_values_of values ↔ v ∈ values.
Proof.
  unfold selector_values_of.
  rewrite elem_of_selector_values_loop, elem_of_empty. tauto.
Qed.

Lemma foldl_snoc_map {A B : Type} (f : A → B) (l : list A) (acc : list B) :
  foldl (fun acc x => acc ++ [f x]) acc l = acc ++ map f l.
Proof.
  revert acc. induction l as [|x l IH]; intros acc; simpl.
  - by rewrite app_nil_r.
  - rewrite IH. by rewrite <- app_assoc.
Qed.

Lemma NodeSelectorRequirementsAsLabelSelectors_map
    (matchExpressions : list NodeSelectorRequirement.t) :
  NodeSelectorRequirementsAsLabelSelectors matchExpressions
  = map selector_of_requirement matchExpressions.
Proof. exact (foldl_snoc_map selector_of_requirement matchExpressions []). Qed.

Lemma selector_of_requirement_values (nsm : NodeSelectorRequirement.t) :
  LabelSelector.values (selector_of_requirement nsm)
  = NodeSelectorRequirement.values nsm.
Proof.
  unfold selector_of_requirement; simpl.
  rewrite (foldl_snoc_map (fun v : string => v)). simpl. apply map_id.
Qed.

(** The label map keeps the first binding of a key. *)
Lemma insert_loop_keeps (labels : list Label.t) (m : gmap string string)
    (k v : string) :
  m !! k = Some v → foldl insert_label m labels !! k = Some v.
Proof.
  revert m. induction labels as [|label labels IH]; intros m Hk; simpl; [done|].
  apply IH. unfold insert_label, InsertIfNotPresent.
  destruct (m !! Label.key label) as [w|] eqn:Hl; simpl; [done|].
  rewrite lookup_insert_ne; [done|]. intros Heq. congruence.
Qed.

Lemma insert_loop_absent (labels : list Label.t) (m : gmap string string)
    (k : string) :
  m !! k = None →
  Forall (fun label => Label.key label ≠ k) labels →
  foldl insert_label m labels !! k = None.
Proof.
  revert m. induction labels as [|label labels IH]; intros m Hk Hall; simpl; [done|].
  inversion Hall as [|? ? Hne Hrest]; subst.
  apply IH; [|done]. unfold insert_label, InsertIfNotPresent.
  destruct (m !! Label.key label) as [w|] eqn:Hl; simpl; [done|].
  by rewrite lookup_insert_ne.
Qed.

Lemma insert_loop_first (before after : list Label.t) (k v : string) :
  Forall (fun label => Label.key label ≠ k) before →
  foldl insert_label ∅ (before ++ Label.mk k v :: after) !! k = Some v.
Proof.
  intros Hbefore. rewrite foldl_app. simpl.
  apply insert_loop_keeps. unfold insert_label at 1, InsertIfNotPresent. simpl.
  rewrite (insert_loop_absent before ∅ k); [|apply lookup_empty|done].
  simpl. apply lookup_insert_eq.
Qed.

(** What each kind computes, as rewriting rules. *)
Lemma SatisfiesLabelSelector_IN_SET (rd_labels : gmap string string)
    (V : gset string) (selector : LabelSelector.t) :
  LabelSelector.type selector = IN_SET →
  SatisfiesLabelSelector rd_labels V selector
  = Returns (match rd_labels !! LabelSelector.key selector with
             | Some value => bool_decide (value ∈ V)
             | None => false
             end).
Proof.
  intros Ht. unfold SatisfiesLabelSelector, FindOrNull. rewrite Ht.
  destruct (rd_labels !! LabelSelector.key selector); [|done].
  by case_bool_decide.
Qed.

Lemma SatisfiesLabelSelector_NOT_IN_SET (rd_labels : gmap string string)
    (V : gset string) (selector : LabelSelector.t) :
  LabelSelector.type selector = NOT_IN_SET →
  SatisfiesLabelSelector rd_labels V selector
  = Returns (match rd_labels !! LabelSelector.key selector with
             | Some value => negb (bool_decide (value ∈ V))
             | None => true
             end).
Proof.
  intros Ht. unfold SatisfiesLabelSelector, FindOrNull. rewrite Ht.
  destruct (rd_labels !! LabelSelector.key selector); [|done].
  by case_bool_decide.
Qed.

(** A selector of one of the four kinds makes the call return. *)
Lemma SatisfiesLabelSelector_returns (rd_labels : gmap string string)
    (V : gset string) (selector : LabelSelector.t) :
  known_type selector →
  ∃ b, SatisfiesLabelSelector rd_labels V selector = Returns b.
Proof.
  intros [Ht|[Ht|[Ht|Ht]]].
  - rewrite SatisfiesLabelSelector_IN_SET by done. eauto.
  - rewrite SatisfiesLabelSelector_NOT_IN_SET by done. eauto.
  - unfold SatisfiesLabelSelector. rewrite Ht. eauto.
  - unfold SatisfiesLabelSelector. rewrite Ht. eauto.
Qed.

Lemma selector_of_requirement_known (nsm : NodeSelectorRequirement.t) :
  known_type (selector_of_requirement nsm).
Proof.
  unfold known_type, selector_of_requirement; simpl.
  repeat case_match; auto.
Qed.

(** ** IN_SET and NOT_IN_SET *)

(** C1. For every label map and every IN_SET selector with value set [V],
    SatisfiesLabelSelector returns, and it returns true exactly when the
    selector's key is bound in the map to a member of [V]; when the key is
    absent it returns false. The same holds of the two-argument overload,
    whose value set is the selector's own value list. *)
Theorem C1_in_set_iff_member (rd_labels : gmap string string)
    (V : gset string) (selector : LabelSelector.t) :
  LabelSelector.type selector = IN_SET →
  (∃ b, SatisfiesLabelSelector rd_labels V selector = Returns b
        ∧ (b = true ↔
           ∃ value, rd_labels !! LabelSelector.key selector = Some value
                    ∧ value ∈ V))
  ∧ (rd_labels !! LabelSelector.key selector = None →
     SatisfiesLabelSelector rd_labels V selector = Returns false)
  ∧ (SatisfiesLabelSelector_map rd_labels selector = Returns true ↔
     ∃ value, rd_labels !! LabelSelector.key selector = Some value
              ∧ value ∈ LabelSelector.values selector).
Proof.
  intros Ht. split; [|split].
  - rewrite SatisfiesLabelSelector_IN_SET by done.
    eexists; split; [reflexivity|].
    destruct (rd_labels !! LabelSelector.key selector) as [w|].
    + rewrite bool_decide_eq_true. split.
      * intros Hw. by exists w.
      * intros (value & Hv & Hin). by injection Hv as ->.
    + split; [done|]. by intros (value & Hv & _).
  - intros Hk. rewrite SatisfiesLabelSelector_IN_SET by done. by rewrite Hk.
  - unfold SatisfiesLabelSelector_map.
    rewrite SatisfiesLabelSelector_IN_SET by done.
    destruct (rd_labels !! LabelSelector.key selector) as [w|].
    + split.
      * intros Hr. injection Hr as Hr. apply bool_decide_eq_true in Hr.
        exists w. split; [done|]. by apply elem_of_selector_values_of.
      * intros (value & Hv & Hin). injection Hv as ->. f_equal.
        apply bool_decide_eq_true. by apply elem_of_selector_values_of.
    + split; [done|]. by intros (value & Hv & _).
Qed.

Lemma C1_in_set_iff_member_witness :
  LabelSelector.type (LabelSelector.mk IN_SET "zone" ["us-east"; "us-west"]) = IN_SET
  ∧ SatisfiesLabelSelector_map {[ "zone" := "us-east" ]}
      (LabelSelector.mk IN_SET "zone" ["us-east"; "us-west"]) = Returns true.
Proof.
  split; [reflexivity|].
  apply (C1_in_set_iff_member {[ "zone" := "us-east" ]} ∅
           (LabelSelector.mk IN_SET "zone" ["us-east"; "us-west"]) eq_refl).
  exists "us-east". split; [reflexivity|]. apply list_elem_of_here.
Defined.

(** C2, as the code has it. For every label map, key and value set,
    SatisfiesLabelSelector on the NOT_IN_SET selector returns the negation
    of what it returns on the IN_SET selector with the same key and values;
    when the key is absent from the map the IN_SET selector yields false and
    the NOT_IN_SET selector yields true. *)
Theorem C2_not_in_set_negates_in_set (rd_labels : gmap string string)
    (V : gset string) (sel_in sel_not_in : LabelSelector.t) :
  LabelSelector.type sel_in = IN_SET →
  LabelSelector.type sel_not_in = NOT_IN_SET →
  LabelSelector.key sel_not_in = LabelSelector.key sel_in →
  (∃ b, SatisfiesLabelSelector rd_labels V sel_in = Returns b
        ∧ SatisfiesLabelSelector rd_labels V sel_not_in = Returns (negb b))
  ∧ (rd_labels !! LabelSelector.key sel_in = None →
     SatisfiesLabelSelector rd_labels V sel_in = Returns false
     ∧ SatisfiesLabelSelector rd_labels V sel_not_in = Returns true).
Proof.
  intros Hin Hnot Hkey.
  rewrite (SatisfiesLabelSelector_IN_SET _ _ sel_in) by done.
  rewrite (SatisfiesLabelSelector_NOT_IN_SET _ _ sel_not_in) by done.
  rewrite Hkey. split.
  - eexists; split; [reflexivity|].
    by destruct (rd_labels !! LabelSelector.key sel_in).
  - by intros ->.
Qed.

Lemma C2_not_in_set_negates_in_set_witness :
  ∃ b, SatisfiesLabelSelector {[ "zone" := "us-east" ]} {[ "us-east" ]}
         (LabelSelector.mk IN_SET "zone" ["us-east"]) = Returns b
       ∧ SatisfiesLabelSelector {[ "zone" := "us-east" ]} {[ "us-east" ]}
           (LabelSelector.mk NOT_IN_SET "zone" ["us-east"]) = Returns (negb b).
Proof.
  apply (C2_not_in_set_negates_in_set {[ "zone" := "us-east" ]} {[ "us-east" ]}
           (LabelSelector.mk IN_SET "zone" ["us-east"])
           (LabelSelector.mk NOT_IN_SET "zone" ["us-east"])); reflexivity.
Defined.

(** C2 as stated fails when the key is absent: the IN_SET selector then
    yields false, not true. *)
Lemma C2_absent_key_in_set_is_false :
  (∅ : gmap string string) !! "zone" = None
  ∧ SatisfiesLabelSelector ∅ {[ "us-east" ]}
      (LabelSelector.mk IN_SET "zone" ["us-east"]) = Returns false
  ∧ SatisfiesLabelSelector ∅ {[ "us-east" ]}
      (LabelSelector.mk NOT_IN_SET "zone" ["us-east"]) = Returns true
  ∧ SatisfiesLabelSelector_map ∅
      (LabelSelector.mk IN_SET "zone" ["us-east"]) = Returns false.
Proof. repeat split; reflexivity. Qed.

(** ** The closed enumeration of kinds *)

(** C8. For a selector of one of the four kinds SatisfiesLabelSelector
    returns a boolean; for a kind outside the enumeration the call is fatal
    (it logs the unsupported type) and returns nothing. *)
Theorem C8_fatal_exactly_outside_enumeration (rd_labels : gmap string string)
    (V : gset string) (selector : LabelSelector.t) :
  (known_type selector →
   ∃ b, SatisfiesLabelSelector rd_labels V selector = Returns b)
  ∧ (¬ known_type selector →
     SatisfiesLabelSelector rd_labels V selector
     = Fatal (LabelSelector.type selector)).
Proof.
  split; [apply SatisfiesLabelSelector_returns|].
  intros Hunknown. unfold SatisfiesLabelSelector.
  destruct (LabelSelector.type selector) as [|[[p|p|]|[p|p|]|]|p] eqn:Ht;
    try reflexivity;
    exfalso; apply Hunknown; unfold known_type; rewrite Ht; auto 6.
Qed.

Lemma C8_fatal_exactly_outside_enumeration_witness :
  (∃ b, SatisfiesLabelSelector {[ "gpu" := "yes" ]} ∅
          (LabelSelector.mk EXISTS_KEY "gpu" []) = Returns b)
  ∧ SatisfiesLabelSelector {[ "gpu" := "yes" ]} ∅
      (LabelSelector.mk 4 "gpu" []) = Fatal 4.
Proof.
  split.
  - apply (proj1 (C8_fatal_exactly_outside_enumeration {[ "gpu" := "yes" ]} ∅
                    (LabelSelector.mk EXISTS_KEY "gpu" []))).
    right; right; left; reflexivity.
  - apply (proj2 (C8_fatal_exactly_outside_enumeration {[ "gpu" := "yes" ]} ∅
                    (LabelSelector.mk 4 "gpu" []))).
    intros [H|[H|[H|H]]]; discriminate H.
Defined.

(** C9. For every label map and key, the EXISTS_KEY selector yields
    key presence and the NOT_EXISTS_KEY selector yields key absence, whatever
    the value set handed to the call and whatever the selector's value
    list. *)
Theorem C9_exists_key_ignores_values (rd_labels : gmap string string)
    (k : string) (V1 V2 : gset string) (vs1 vs2 : list string) :
  SatisfiesLabelSelector rd_labels V1 (LabelSelector.mk EXISTS_KEY k vs1)
    = Returns (bool_decide (is_Some (rd_labels !! k)))
  ∧ SatisfiesLabelSelector rd_labels V2 (LabelSelector.mk EXISTS_KEY k vs2)
    = SatisfiesLabelSelector rd_labels V1 (LabelSelector.mk EXISTS_KEY k vs1)
  ∧ SatisfiesLabelSelector rd_labels V1 (LabelSelector.mk NOT_EXISTS_KEY k vs1)
    = Returns (bool_decide (rd_labels !! k = None))
  ∧ SatisfiesLabelSelector rd_labels V2 (LabelSelector.mk NOT_EXISTS_KEY k vs2)
    = SatisfiesLabelSelector rd_labels V1 (LabelSelector.mk NOT_EXISTS_KEY k vs1)
  ∧ SatisfiesLabelSelector_map rd_labels (LabelSelector.mk EXISTS_KEY k vs2)
    = SatisfiesLabelSelector_map rd_labels (LabelSelector.mk EXISTS_KEY k vs1)
  ∧ SatisfiesLabelSelector_map rd_labels (LabelSelector.mk NOT_EXISTS_KEY k vs2)
    = SatisfiesLabelSelector_map rd_labels (LabelSelector.mk NOT_EXISTS_KEY k vs1).
Proof.
  unfold SatisfiesLabelSelector_map, SatisfiesLabelSelector, ContainsKey; simpl.
  repeat split; try reflexivity.
  f_equal. destruct (rd_labels !! k) as [v|] eqn:Hk.
  - rewrite bool_decide_eq_true_2 by eauto.
    by rewrite bool_decide_eq_false_2.
  - rewrite bool_decide_eq_false_2 by (by intros [v Hv]).
    by rewrite bool_decide_eq_true_2.
Qed.

(** ** Operator names *)

Lemma selector_of_requirement_type (nsm : NodeSelectorRequirement.t) :
  let operator_type := NodeSelectorRequirement.operator_ nsm in
  let type := LabelSelector.type (selector_of_requirement nsm) in
  (operator_type = "In" → type = IN_SET)
  ∧ (operator_type = "NotIn" → type = NOT_IN_SET)
  ∧ (operator_type = "Exists" → type = EXISTS_KEY)
  ∧ (operator_type = "DoesNotExist" → type = NOT_EXISTS_KEY)
  ∧ (operator_type ∉ ["In"; "NotIn"; "Exists"; "DoesNotExist"] →
     type = IN_SET).
Proof.
  unfold selector_of_requirement; simpl.
  repeat split; try (intros ->; reflexivity).
  intros Hother.
  destruct (String.eqb_spec (NodeSelectorRequirement.operator_ nsm) "In");
    [reflexivity|].
  destruct (String.eqb_spec (NodeSelectorRequirement.operator_ nsm) "NotIn")
    as [Heq|_]; [exfalso; apply Hother; rewrite Heq; repeat constructor|].
  destruct (String.eqb_spec (NodeSelectorRequirement.operator_ nsm) "Exists")
    as [Heq|_]; [exfalso; apply Hother; rewrite Heq; repeat constructor|].
  destruct (String.eqb_spec (NodeSelectorRequirement.operator_ nsm) "DoesNotExist")
    as [Heq|_]; [exfalso; apply Hother; rewrite Heq; repeat constructor|].
  reflexivity.
Qed.

(** C7. NodeSelectorRequirementsAsLabelSelectors yields one selector per
    requirement, in order; each carries the requirement's key and value list
    unchanged, and its kind is IN_SET for "In", NOT_IN_SET for "NotIn",
    EXISTS_KEY for "Exists", NOT_EXISTS_KEY for "DoesNotExist" and IN_SET
    (index 0) for every other operator string. *)
Theorem C7_operator_table (matchExpressions : list NodeSelectorRequirement.t) :
  Forall2
    (fun nsm selector =>
       LabelSelector.key selector = NodeSelectorRequirement.key nsm
       ∧ LabelSelector.values selector = NodeSelectorRequirement.values nsm
       ∧ (NodeSelectorRequirement.operator_ nsm = "In" →
          LabelSelector.type selector = IN_SET)
       ∧ (NodeSelectorRequirement.operator_ nsm = "NotIn" →
          LabelSelector.type selector = NOT_IN_SET)
       ∧ (NodeSelectorRequirement.operator_ nsm = "Exists" →
          LabelSelector.type selector = EXISTS_KEY)
       ∧ (NodeSelectorRequirement.operator_ nsm = "DoesNotExist" →
          LabelSelector.type selector = NOT_EXISTS_KEY)
       ∧ (NodeSelectorRequirement.operator_ nsm
            ∉ ["In"; "NotIn"; "Exists"; "DoesNotExist"] →
          LabelSelector.type selector = IN_SET))
    matchExpressions
    (NodeSelectorRequirementsAsLabelSelectors matchExpressions).
Proof.
  rewrite NodeSelectorRequirementsAsLabelSelectors_map.
  induction matchExpressions as [|nsm rest IH]; simpl; constructor; [|exact IH].
  split; [reflexivity|].
  split; [apply selector_of_requirement_values|].
  apply selector_of_requirement_type.
Qed.

Lemma C7_operator_table_witness :
  Forall2
    (fun nsm selector =>
       LabelSelector.key selector = NodeSelectorRequirement.key nsm
       ∧ LabelSelector.values selector = NodeSelectorRequirement.values nsm
       ∧ (NodeSelectorRequirement.operator_ nsm = "In" →
          LabelSelector.type selector = IN_SET)
       ∧ (NodeSelectorRequirement.operator_ nsm = "NotIn" →
          LabelSelector.type selector = NOT_IN_SET)
       ∧ (NodeSelectorRequirement.operator_ nsm = "Exists" →
          LabelSelector.type selector = EXISTS_KEY)
       ∧ (NodeSelectorRequirement.operator_ nsm = "DoesNotExist" →
          LabelSelector.type selector = NOT_EXISTS_KEY)
       ∧ (NodeSelectorRequirement.operator_ nsm
            ∉ ["In"; "NotIn"; "Exists"; "DoesNotExist"] →
          LabelSelector.type selector = IN_SET))
    [NodeSelectorRequirement.mk "zone" "NotIn" ["a"; "b"];
     NodeSelectorRequirement.mk "disk" "Gt" ["1"]]
    [LabelSelector.mk NOT_IN_SET "zone" ["a"; "b"];
     LabelSelector.mk IN_SET "disk" ["1"]].
Proof.
  exact (C7_operator_table
           [NodeSelectorRequirement.mk "zone" "NotIn" ["a"; "b"];
            NodeSelectorRequirement.mk "disk" "Gt" ["1"]]).
Defined.

Example operator_names_run :
  NodeSelectorRequirementsAsLabelSelectors
    [NodeSelectorRequirement.mk "zone" "NotIn" ["a"; "b"];
     NodeSelectorRequirement.mk "gpu" "DoesNotExist" [];
     NodeSelectorRequirement.mk "disk" "Gt" ["1"]]
  = [LabelSelector.mk NOT_IN_SET "zone" ["a"; "b"];
     LabelSelector.mk NOT_EXISTS_KEY "gpu" [];
     LabelSelector.mk IN_SET "disk" ["1"]].
Proof. reflexivity. Qed.

(** ** Conjunctions of selectors, disjunctions of terms *)

(** Over selectors of known kinds the loop returns, and it returns true
    exactly when every selector is satisfied. *)
Lemma SatisfiesLabelSelectors_loop_spec (rd_labels : gmap string string)
    (selectors : list LabelSelector.t) :
  Forall known_type selectors →
  ∃ b, SatisfiesLabelSelectors_loop rd_labels selectors = Returns b
       ∧ (b = true ↔
          Forall (fun selector =>
                    SatisfiesLabelSelector_map rd_labels selector = Returns true)
                 selectors).
Proof.
  induction 1 as [|selector rest Hknown _ IH]; simpl.
  - exists true. split; [reflexivity|]. by split.
  - destruct (SatisfiesLabelSelector_returns rd_labels
                (selector_values_of (LabelSelector.values selector))
                selector Hknown) as [ok Hok].
    unfold SatisfiesLabelSelector_map at 1. rewrite Hok. simpl.
    destruct ok; simpl.
    + destruct IH as (b & Hb & Hiff). exists b. split; [exact Hb|].
      rewrite Hiff. split.
      * intros Hrest. by constructor.
      * intros Hall. by inversion Hall.
    + exists false. split; [reflexivity|]. split; [done|].
      intros Hall. inversion Hall as [|? ? Hhead _]; subst.
      unfold SatisfiesLabelSelector_map in Hhead. congruence.
Qed.

(** Selectors derived from match expressions are always of a known kind, so
    evaluating match expressions never reaches the fatal branch. *)
Lemma SatisfiesMatchExpressions_returns (rd : ResourceDescriptor.t)
    (matchExpressions : list NodeSelectorRequirement.t) :
  ∃ b, SatisfiesMatchExpressions rd matchExpressions = Returns b.
Proof.
  unfold SatisfiesMatchExpressions, SatisfiesLabelSelectors.
  rewrite NodeSelectorRequirementsAsLabelSelectors_map.
  destruct (SatisfiesLabelSelectors_loop_spec (rd_labels_of rd)
              (map selector_of_requirement matchExpressions)) as (b & Hb & _).
  - apply Forall_forall. intros selector Hin.
    apply list_elem_of_fmap in Hin as (nsm & -> & _).
    apply selector_of_requirement_known.
  - by exists b.
Qed.

Lemma NodeMatchesNodeSelectorTerm_nonempty (rd : ResourceDescriptor.t)
    (term : NodeSelectorTerm.t) :
  NodeSelectorTerm.matchexpressions term ≠ [] →
  NodeMatchesNodeSelectorTerm rd term
  = SatisfiesMatchExpressions rd (NodeSelectorTerm.matchexpressions term).
Proof.
  intros Hne. unfold NodeMatchesNodeSelectorTerm.
  rewrite bool_decide_eq_false_2; [done|].
  by destruct (NodeSelectorTerm.matchexpressions term).
Qed.

Lemma NodeMatchesNodeSelectorTerm_empty (rd : ResourceDescriptor.t)
    (term : NodeSelectorTerm.t) :
  NodeSelectorTerm.matchexpressions term = [] →
  NodeMatchesNodeSelectorTerm rd term = Returns false.
Proof. intros Hempty. unfold NodeMatchesNodeSelectorTerm. by rewrite Hempty. Qed.

(** The term list is the disjunction of its terms. *)
Lemma NodeMatchesNodeSelectorTerms_spec (rd : ResourceDescriptor.t)
    (terms : list NodeSelectorTerm.t) :
  ∃ b, NodeMatchesNodeSelectorTerms rd terms = Returns b
       ∧ (b = true ↔
          Exists (fun term => NodeMatchesNodeSelectorTerm rd term = Returns true)
                 terms).
Proof.
  induction terms as [|req rest IH]; simpl.
  - exists false. split; [reflexivity|]. split; [done|]. by inversion 1.
  - destruct IH as (b & Hb & Hiff).
    destruct (NodeSelectorTerm.matchexpressions req) as [|nsm more] eqn:Hreq.
    + simpl. exists b. split; [exact Hb|]. rewrite Hiff. split.
      * intros Hrest. by apply Exists_cons_tl.
      * intros Hany. inversion Hany as [? ? Hhead|]; subst; [|done].
        rewrite NodeMatchesNodeSelectorTerm_empty in Hhead; done.
    + simpl.
      destruct (SatisfiesMatchExpressions_returns rd (nsm :: more)) as [ok Hok].
      rewrite Hok. simpl. destruct ok; simpl.
      * exists true. split; [reflexivity|]. split; [|done]. intros _.
        apply Exists_cons_hd.
        rewrite NodeMatchesNodeSelectorTerm_nonempty; rewrite Hreq; done.
      * exists b. split; [exact Hb|]. rewrite Hiff. split.
        -- intros Hrest. by apply Exists_cons_tl.
        -- intros Hany. inversion Hany as [? ? Hhead|]; subst; [|done].
           rewrite NodeMatchesNodeSelectorTerm_nonempty in Hhead;
             rewrite Hreq in *; [congruence|done].
Qed.

(** C4. A term with no match expression never matches and an empty term list
    never matches; an empty term inside a list is skipped, so the list still
    matches as soon as one of its other terms does. *)
Theorem C4_empty_term_and_empty_list (rd : ResourceDescriptor.t) :
  (∀ term, NodeSelectorTerm.matchexpressions term = [] →
           NodeMatchesNodeSelectorTerm rd term = Returns false)
  ∧ NodeMatchesNodeSelectorTerms rd [] = Returns false
  ∧ (∀ empty before after,
       NodeSelectorTerm.matchexpressions empty = [] →
       NodeMatchesNodeSelectorTerms rd (before ++ empty :: after)
       = NodeMatchesNodeSelectorTerms rd (before ++ after))
  ∧ (∀ empty other before after,
       NodeSelectorTerm.matchexpressions empty = [] →
       other ∈ before ++ after →
       NodeMatchesNodeSelectorTerm rd other = Returns true →
       NodeMatchesNodeSelectorTerms rd (before ++ empty :: after) = Returns true).
Proof.
  assert (Hskip : ∀ empty before after,
            NodeSelectorTerm.matchexpressions empty = [] →
            NodeMatchesNodeSelectorTerms rd (before ++ empty :: after)
            = NodeMatchesNodeSelectorTerms rd (before ++ after)).
  { intros empty before after Hempty.
    induction before as [|req before IH]; simpl.
    - by rewrite Hempty.
    - by rewrite IH. }
  split; [apply NodeMatchesNodeSelectorTerm_empty|].
  split; [reflexivity|].
  split; [exact Hskip|].
  intros empty other before after Hempty Hin Hother.
  rewrite Hskip by done.
  destruct (NodeMatchesNodeSelectorTerms_spec rd (before ++ after))
    as (b & -> & Hiff).
  f_equal. apply Hiff. apply Exists_exists. by exists other.
Qed.

Lemma C4_empty_term_and_empty_list_witness :
  NodeMatchesNodeSelectorTerms
    (ResourceDescriptor.mk [Label.mk "zone" "us-east"])
    ([] ++ NodeSelectorTerm.mk []
        :: [NodeSelectorTerm.mk [NodeSelectorRequirement.mk "zone" "Exists" []]])
  = Returns true.
Proof.
  apply (proj2 (proj2 (proj2 (C4_empty_term_and_empty_list
           (ResourceDescriptor.mk [Label.mk "zone" "us-east"]))))
         (NodeSelectorTerm.mk [])
         (NodeSelectorTerm.mk [NodeSelectorRequirement.mk "zone" "Exists" []])
         [] [NodeSelectorTerm.mk [NodeSelectorRequirement.mk "zone" "Exists" []]]).
  - reflexivity.
  - apply list_elem_of_here.
  - reflexivity.
Defined.

(** Scenario C of the specification: a term on an absent key and an empty
    term; neither matches. *)
Example scenario_C :
  NodeMatchesNodeSelectorTerms
    (ResourceDescriptor.mk [Label.mk "zone" "us-east"])
    [NodeSelectorTerm.mk [NodeSelectorRequirement.mk "gpu" "Exists" []];
     NodeSelectorTerm.mk []]
  = Returns false.
Proof. reflexivity. Qed.

(** ** SatisfiesNodeSelectorAndNodeAffinity *)

(** Selectors that are satisfied are passed over by the loop. *)
Lemma SatisfiesLabelSelectors_loop_skip (rd_labels : gmap string string)
    (passed rest : list LabelSelector.t) :
  Forall (fun selector =>
            SatisfiesLabelSelector_map rd_labels selector = Returns true) passed →
  SatisfiesLabelSelectors_loop rd_labels (passed ++ rest)
  = SatisfiesLabelSelectors_loop rd_labels rest.
Proof.
  induction 1 as [|selector passed Hsel _ IH]; simpl; [done|].
  by rewrite Hsel.
Qed.

(** A selector of a kind outside the enumeration is fatal, and the fatal
    line carries the kind. *)
Lemma SatisfiesLabelSelector_unknown (rd_labels : gmap string string)
    (V : gset string) (selector : LabelSelector.t) :
  ¬ known_type selector →
  SatisfiesLabelSelector rd_labels V selector
  = Fatal (LabelSelector.type selector).
Proof.
  intros Hunknown. unfold SatisfiesLabelSelector.
  destruct (LabelSelector.type selector) as [|[[p|p|]|[p|p|]|]|p] eqn:Ht;
    try reflexivity;
    exfalso; apply Hunknown; unfold known_type; rewrite Ht; auto 6.
Qed.

(** C5, as the code has it. The selector check fails fast. For a task whose
    label selectors are satisfied up to some selector:
    - if that selector evaluates to false the call returns false, whatever
      follows it in the list and whatever affinity the task declares;
    - if that selector is of a kind outside the enumeration the call is
      fatal and returns nothing.
    Hence, when all the selectors of the task are of the four kinds and the
    labels do not satisfy all of them, the call returns false regardless of
    the affinity. *)
Theorem C5_first_unsatisfied_selector_decides (rd : ResourceDescriptor.t)
    (td : TaskDescriptor.t) :
  (∀ passed selector rest,
     TaskDescriptor.label_selectors td = passed ++ selector :: rest →
     Forall (fun s => SatisfiesLabelSelector_map (rd_labels_of rd) s = Returns true)
            passed →
     SatisfiesLabelSelector_map (rd_labels_of rd) selector = Returns false →
     SatisfiesNodeSelectorAndNodeAffinity rd td = Returns false)
  ∧ (∀ passed selector rest,
       TaskDescriptor.label_selectors td = passed ++ selector :: rest →
       Forall (fun s => SatisfiesLabelSelector_map (rd_labels_of rd) s = Returns true)
              passed →
       ¬ known_type selector →
       SatisfiesNodeSelectorAndNodeAffinity rd td
       = Fatal (LabelSelector.type selector))
  ∧ (TaskDescriptor.label_selectors td ≠ [] →
     Forall known_type (TaskDescriptor.label_selectors td) →
     ¬ Forall (fun selector =>
                 SatisfiesLabelSelector_map (rd_labels_of rd) selector
                 = Returns true)
              (TaskDescriptor.label_selectors td) →
     SatisfiesNodeSelectorAndNodeAffinity rd td = Returns false).
Proof.
  split; [|split].
  - intros passed selector rest Hsel Hpassed Hfails.
    unfold SatisfiesNodeSelectorAndNodeAffinity. rewrite Hsel.
    rewrite bool_decide_eq_true_2 by (by destruct passed).
    unfold SatisfiesLabelSelectors.
    rewrite SatisfiesLabelSelectors_loop_skip by exact Hpassed.
    simpl. by rewrite Hfails.
  - intros passed selector rest Hsel Hpassed Hunknown.
    unfold SatisfiesNodeSelectorAndNodeAffinity. rewrite Hsel.
    rewrite bool_decide_eq_true_2 by (by destruct passed).
    unfold SatisfiesLabelSelectors.
    rewrite SatisfiesLabelSelectors_loop_skip by exact Hpassed.
    simpl. unfold SatisfiesLabelSelector_map.
    by rewrite SatisfiesLabelSelector_unknown.
  - intros Hne Hknown Hfail. unfold SatisfiesNodeSelectorAndNodeAffinity.
    rewrite bool_decide_eq_true_2
      by (by destruct (TaskDescriptor.label_selectors td)).
    unfold SatisfiesLabelSelectors.
    destruct (SatisfiesLabelSelectors_loop_spec (rd_labels_of rd)
                (TaskDescriptor.label_selectors td) Hknown) as (b & -> & Hiff).
    destruct b; simpl; [|reflexivity].
    exfalso. apply Hfail. by apply Hiff.
Qed.

(** A failing selector ahead of one of unsupported kind: the call returns
    false, the affinity (here without a required field, which alone would
    accept) notwithstanding. *)
Lemma C5_first_unsatisfied_selector_decides_witness :
  SatisfiesNodeSelectorAndNodeAffinity
    (ResourceDescriptor.mk [Label.mk "zone" "a"])
    (TaskDescriptor.mk
       [LabelSelector.mk EXISTS_KEY "zone" [];
        LabelSelector.mk IN_SET "zone" ["b"];
        LabelSelector.mk 9 "zone" []]
       (Some (Affinity.mk (Some (NodeAffinity.mk None)))))
  = Returns false.
Proof.
  apply (proj1 (C5_first_unsatisfied_selector_decides
                  (ResourceDescriptor.mk [Label.mk "zone" "a"])
                  (TaskDescriptor.mk
                     [LabelSelector.mk EXISTS_KEY "zone" [];
                      LabelSelector.mk IN_SET "zone" ["b"];
                      LabelSelector.mk 9 "zone" []]
                     (Some (Affinity.mk (Some (NodeAffinity.mk None))))))
               [LabelSelector.mk EXISTS_KEY "zone" []]
               (LabelSelector.mk IN_SET "zone" ["b"])
               [LabelSelector.mk 9 "zone" []]).
  - reflexivity.
  - constructor; [reflexivity|constructor].
  - reflexivity.
Defined.

(** C5 as stated fails: a task with one label selector, of a kind outside
    the enumeration, on a resource whose labels therefore do not satisfy all
    of its selectors; the call does not return false, it is fatal. *)
Lemma C5_unsupported_selector_is_fatal :
  TaskDescriptor.label_selectors
    (TaskDescriptor.mk [LabelSelector.mk 9 "zone" []] None) ≠ []
  ∧ ¬ Forall (fun selector =>
                SatisfiesLabelSelector_map
                  (rd_labels_of (ResourceDescriptor.mk [Label.mk "zone" "a"]))
                  selector = Returns true)
             [LabelSelector.mk 9 "zone" []]
  ∧ SatisfiesNodeSelectorAndNodeAffinity
      (ResourceDescriptor.mk [Label.mk "zone" "a"])
      (TaskDescriptor.mk [LabelSelector.mk 9 "zone" []] None)
    = Fatal 9
  ∧ SatisfiesNodeSelectorAndNodeAffinity
      (ResourceDescriptor.mk [Label.mk "zone" "a"])
      (TaskDescriptor.mk [LabelSelector.mk 9 "zone" []] None)
    ≠ Returns false.
Proof.
  split; [discriminate|]. split; [|split; [reflexivity|discriminate]].
  intros Hall. inversion Hall as [|? ? Hhead _]. discriminate Hhead.
Qed.

(** C3, as the code has it. For a task whose node affinity has the required
    field present with an empty term list, the term list is not consulted:
    the call yields what the label-selector check yields on the task's own
    selectors, hence true for a task without label selectors. *)
Theorem C3_empty_required_terms_unconstrained (rd : ResourceDescriptor.t)
    (td : TaskDescriptor.t) (affinity : Affinity.t)
    (node_affinity : NodeAffinity.t) (required : NodeSelector.t) :
  TaskDescriptor.affinity td = Some affinity →
  Affinity.node_affinity affinity = Some node_affinity →
  NodeAffinity.requiredduringschedulingignoredduringexecution node_affinity
    = Some required →
  NodeSelector.nodeselectorterms required = [] →
  SatisfiesNodeSelectorAndNodeAffinity rd td
    = SatisfiesLabelSelectors rd (TaskDescriptor.label_selectors td)
  ∧ (TaskDescriptor.label_selectors td = [] →
     SatisfiesNodeSelectorAndNodeAffinity rd td = Returns true).
Proof.
  intros Haff Hnode Hreq Hterms.
  assert (Heq : SatisfiesNodeSelectorAndNodeAffinity rd td
                = SatisfiesLabelSelectors rd (TaskDescriptor.label_selectors td)).
  { unfold SatisfiesNodeSelectorAndNodeAffinity.
    rewrite Haff, Hnode, Hreq, Hterms. simpl.
    destruct (TaskDescriptor.label_selectors td) as [|selector rest] eqn:Hsel.
    - reflexivity.
    - rewrite bool_decide_eq_true_2 by done.
      by destruct (SatisfiesLabelSelectors rd (selector :: rest)) as [[|]|]. }
  split; [exact Heq|].
  intros Hnone. rewrite Heq, Hnone. reflexivity.
Qed.

Lemma C3_empty_required_terms_unconstrained_witness :
  SatisfiesNodeSelectorAndNodeAffinity
    (ResourceDescriptor.mk [Label.mk "zone" "us-east"])
    (TaskDescriptor.mk [LabelSelector.mk IN_SET "zone" ["us-west"]]
       (Some (Affinity.mk (Some (NodeAffinity.mk (Some (NodeSelector.mk [])))))))
  = SatisfiesLabelSelectors
      (ResourceDescriptor.mk [Label.mk "zone" "us-east"])
      [LabelSelector.mk IN_SET "zone" ["us-west"]].
Proof.
  apply (C3_empty_required_terms_unconstrained
           (ResourceDescriptor.mk [Label.mk "zone" "us-east"])
           (TaskDescriptor.mk [LabelSelector.mk IN_SET "zone" ["us-west"]]
              (Some (Affinity.mk (Some (NodeAffinity.mk (Some (NodeSelector.mk [])))))))
           (Affinity.mk (Some (NodeAffinity.mk (Some (NodeSelector.mk [])))))
           (NodeAffinity.mk (Some (NodeSelector.mk [])))
           (NodeSelector.mk [])); reflexivity.
Defined.

(** C3 as stated fails: with the required field present and no term in it,
    a task without label selectors is accepted on any resource, here one
    without labels. *)
Lemma C3_empty_required_terms_accepts :
  NodeSelector.nodeselectorterms (NodeSelector.mk []) = []
  ∧ SatisfiesNodeSelectorAndNodeAffinity
      (ResourceDescriptor.mk [])
      (TaskDescriptor.mk []
         (Some (Affinity.mk (Some (NodeAffinity.mk (Some (NodeSelector.mk [])))))))
    = Returns true
  ∧ NodeMatchesNodeSelectorTerms (ResourceDescriptor.mk []) [] = Returns false.
Proof. repeat split; reflexivity. Qed.

(** ** Colliding labels *)

(** A selector reads the label map at its own key only. *)
Lemma SatisfiesLabelSelector_map_lookup (m1 m2 : gmap string string)
    (selector : LabelSelector.t) :
  m1 !! LabelSelector.key selector = m2 !! LabelSelector.key selector →
  SatisfiesLabelSelector_map m1 selector = SatisfiesLabelSelector_map m2 selector.
Proof.
  intros Hsame.
  unfold SatisfiesLabelSelector_map, SatisfiesLabelSelector, FindOrNull, ContainsKey.
  by rewrite Hsame.
Qed.

(** C6, as the code has it. The label map built from a resource binds a key
    to the value of the first entry of the label list with that key (later
    entries with the key are dropped by InsertIfNotPresent), so a selector on
    that key yields over the resource what it yields over a map holding the
    first-written value. *)
Theorem C6_first_label_wins (rd : ResourceDescriptor.t)
    (before after : list Label.t) (k v : string) (selector : LabelSelector.t) :
  ResourceDescriptor.labels rd = before ++ Label.mk k v :: after →
  Forall (fun label => Label.key label ≠ k) before →
  rd_labels_of rd !! k = Some v
  ∧ (LabelSelector.key selector = k →
     SatisfiesLabelSelector_rd rd selector
     = SatisfiesLabelSelector_map {[ k := v ]} selector).
Proof.
  intros Hlabels Hbefore.
  assert (Hk : rd_labels_of rd !! k = Some v).
  { unfold rd_labels_of. rewrite Hlabels. by apply insert_loop_first. }
  split; [exact Hk|].
  intros Hkey. unfold SatisfiesLabelSelector_rd.
  apply SatisfiesLabelSelector_map_lookup.
  rewrite Hkey, Hk. symmetry. apply lookup_singleton_eq.
Qed.

Lemma C6_first_label_wins_witness :
  rd_labels_of (ResourceDescriptor.mk
                  [Label.mk "rack" "r1"; Label.mk "zone" "a"; Label.mk "zone" "b"])
    !! "zone" = Some "a"
  ∧ (LabelSelector.key (LabelSelector.mk IN_SET "zone" ["b"]) = "zone" →
     SatisfiesLabelSelector_rd
       (ResourceDescriptor.mk
          [Label.mk "rack" "r1"; Label.mk "zone" "a"; Label.mk "zone" "b"])
       (LabelSelector.mk IN_SET "zone" ["b"])
     = SatisfiesLabelSelector_map {[ "zone" := "a" ]}
         (LabelSelector.mk IN_SET "zone" ["b"])).
Proof.
  apply (C6_first_label_wins
           (ResourceDescriptor.mk
              [Label.mk "rack" "r1"; Label.mk "zone" "a"; Label.mk "zone" "b"])
           [Label.mk "rack" "r1"] [Label.mk "zone" "b"] "zone" "a").
  - reflexivity.
  - constructor; [discriminate|constructor].
Defined.

(** C6 as stated fails: with two entries for "zone", the map holds the first
    value, and a selector on the last value is not satisfied although it is
    over a map holding the last-written value. *)
Lemma C6_last_label_does_not_win :
  rd_labels_of (ResourceDescriptor.mk [Label.mk "zone" "a"; Label.mk "zone" "b"])
    !! "zone" = Some "a"
  ∧ SatisfiesLabelSelector_rd
      (ResourceDescriptor.mk [Label.mk "zone" "a"; Label.mk "zone" "b"])
      (LabelSelector.mk IN_SET "zone" ["b"]) = Returns false
  ∧ SatisfiesLabelSelector_map {[ "zone" := "b" ]}
      (LabelSelector.mk IN_SET "zone" ["b"]) = Returns true.
Proof. repeat split; reflexivity. Qed.

(** ** HashSelectors *)

Section HashingFacts.
Variable HashString : string → Z.
Variable hash_combine : Z → Z → Z.

Lemma HashSelectors_loop_agree (s1 s2 : list LabelSelector.t) :
  Forall2 (fun a b => LabelSelector.key a = LabelSelector.key b
                      ∧ LabelSelector.values a = LabelSelector.values b)
          s1 s2 →
  ∀ seed : Z,
    foldl (fun seed label_selector =>
             let seed := hash_combine seed (HashString (LabelSelector.key label_selector)) in
             foldl (fun seed value => hash_combine seed (HashString value))
                   seed (LabelSelector.values label_selector))
          seed s1
    = foldl (fun seed label_selector =>
               let seed := hash_combine seed (HashString (LabelSelector.key label_selector)) in
               foldl (fun seed value => hash_combine seed (HashString value))
                     seed (LabelSelector.values label_selector))
            seed s2.
Proof.
  induction 1 as [|a b s1 s2 [Hkey Hvalues] _ IH]; intros seed; simpl.
  - reflexivity.
  - rewrite Hkey, Hvalues. apply IH.
Qed.

(** C10. HashSelectors reads the keys and the value lists only: two selector
    lists of the same length that agree pointwise on key and values have the
    same hash, whatever their kinds; in particular an IN_SET and a NOT_IN_SET
    selector over the same key and values are hashed alike. *)
Theorem C10_hash_ignores_kind (s1 s2 : list LabelSelector.t) :
  Forall2 (fun a b => LabelSelector.key a = LabelSelector.key b
                      ∧ LabelSelector.values a = LabelSelector.values b)
          s1 s2 →
  HashSelectors HashString hash_combine s1
  = HashSelectors HashString hash_combine s2.
Proof.
  intros Hagree. unfold HashSelectors. by apply HashSelectors_loop_agree.
Qed.

End HashingFacts.

(** An IN_SET and a NOT_IN_SET selector over the same key and values: equal
    hashes, opposite answers on the same labels. *)
Lemma C10_hash_ignores_kind_witness :
  HashSelectors poly_hash_string boost_hash_combine
    [LabelSelector.mk IN_SET "zone" ["us-east"]]
  = HashSelectors poly_hash_string boost_hash_combine
      [LabelSelector.mk NOT_IN_SET "zone" ["us-east"]]
  ∧ SatisfiesLabelSelector_map {[ "zone" := "us-east" ]}
      (LabelSelector.mk IN_SET "zone" ["us-east"]) = Returns true
  ∧ SatisfiesLabelSelector_map {[ "zone" := "us-east" ]}
      (LabelSelector.mk NOT_IN_SET "zone" ["us-east"]) = Returns false.
Proof.
  split; [|split; reflexivity].
  apply (C10_hash_ignores_kind poly_hash_string boost_hash_combine
           [LabelSelector.mk IN_SET "zone" ["us-east"]]
           [LabelSelector.mk NOT_IN_SET "zone" ["us-east"]]).
  constructor; [split; reflexivity|constructor].
Defined.

(** ** Scenarios A and B of the specification *)

Example scenario_A :
  SatisfiesLabelSelector_rd
    (ResourceDescriptor.mk [Label.mk "zone" "us-east"])
    (LabelSelector.mk IN_SET "zone" ["us-east"; "us-west"]) = Returns true.
Proof. reflexivity. Qed.

Example scenario_B :
  SatisfiesLabelSelector_rd
    (ResourceDescriptor.mk [Label.mk "zone" "us-east"])
    (LabelSelector.mk NOT_IN_SET "zone" ["us-east"]) = Returns false.
Proof. reflexivity. Qed.

(** * Further properties of the code *)

(** ** The label map of a resource *)

(** The loop with InsertIfNotPresent, started from any map: what the map
    already binds is kept, and among the labels the earliest entry of a key
    wins, which is what [list_to_map] builds. *)
Lemma insert_loop_union (labels : list Label.t) (m : gmap string string) :
  foldl insert_label m labels
  = m ∪ list_to_map ((fun label => (Label.key label, Label.value label)) <$> labels).
Proof.
  revert m. induction labels as [|label labels IH]; intros m; simpl.
  - by rewrite (right_id_L ∅ (∪)).
  - rewrite IH. unfold insert_label, InsertIfNotPresent.
    destruct (m !! Label.key label) as [w|] eqn:Hm; simpl.
    + apply map_eq. intros i. rewrite !lookup_union.
      destruct (decide (i = Label.key label)) as [->|Hne].
      * rewrite Hm, lookup_insert_eq.
        by destruct (list_to_map _ !! Label.key label).
      * by rewrite lookup_insert_ne.
    + rewrite <- insert_union_l. by rewrite insert_union_r.
Qed.

Lemma insert_label_present (m : gmap string string) (label : Label.t) :
  is_Some (m !! Label.key label) → insert_label m label = m.
Proof.
  intros [w Hw]. unfold insert_label, InsertIfNotPresent. by rewrite Hw.
Qed.

Lemma label_pairs_keys (labels : list Label.t) :
  ((fun label => (Label.key label, Label.value label)) <$> labels).*1
  = Label.key <$> labels.
Proof. by rewrite <- list_fmap_compose. Qed.

Lemma rd_labels_of_list_to_map (rd : ResourceDescriptor.t) :
  rd_labels_of rd
  = list_to_map ((fun label => (Label.key label, Label.value label))
                   <$> ResourceDescriptor.labels rd).
Proof.
  unfold rd_labels_of. rewrite insert_loop_union. by rewrite (left_id_L ∅ (∪)).
Qed.

(** X1. The label map binds exactly the keys that occur in the resource's
    label list, and every binding is the key and value of one of the labels:
    nothing is invented and no key is lost. *)
Theorem rd_labels_of_sound_complete (rd : ResourceDescriptor.t) (k : string) :
  (is_Some (rd_labels_of rd !! k) ↔
   ∃ label, label ∈ ResourceDescriptor.labels rd ∧ Label.key label = k)
  ∧ (∀ v, rd_labels_of rd !! k = Some v →
          Label.mk k v ∈ ResourceDescriptor.labels rd).
Proof.
  rewrite rd_labels_of_list_to_map. split.
  - rewrite <- not_eq_None_Some, <- not_elem_of_list_to_map, label_pairs_keys.
    rewrite list_elem_of_fmap. split.
    + intros Hin.
      destruct (decide (k ∈ Label.key <$> ResourceDescriptor.labels rd))
        as [Hk|Hk].
      * apply list_elem_of_fmap in Hk as (label & -> & Hlabel). by exists label.
      * exfalso. apply Hin. intros (label & -> & Hlabel). apply Hk.
        by apply list_elem_of_fmap_2.
    + intros (label & Hlabel & <-) Hnot. apply Hnot. by exists label.
  - intros v Hv. apply elem_of_list_to_map_2 in Hv.
    apply list_elem_of_fmap in Hv as (label & Heq & Hlabel).
    injection Heq as -> ->. by destruct label.
Qed.

Lemma rd_labels_of_sound_complete_witness :
  Label.mk "zone" "a"
  ∈ ResourceDescriptor.labels
      (ResourceDescriptor.mk [Label.mk "rack" "r1"; Label.mk "zone" "a"]).
Proof.
  apply (proj2 (rd_labels_of_sound_complete
                  (ResourceDescriptor.mk [Label.mk "rack" "r1"; Label.mk "zone" "a"])
                  "zone") "a").
  reflexivity.
Defined.

(** X2. When the keys of the label list are pairwise distinct the order of
    the labels is irrelevant: any rearrangement of the list builds the same
    map. *)
Theorem rd_labels_of_order_irrelevant (rd rd' : ResourceDescriptor.t) :
  NoDup (Label.key <$> ResourceDescriptor.labels rd) →
  ResourceDescriptor.labels rd ≡ₚ ResourceDescriptor.labels rd' →
  rd_labels_of rd = rd_labels_of rd'.
Proof.
  intros Hnodup Hperm. rewrite !rd_labels_of_list_to_map.
  apply list_to_map_proper.
  - by rewrite label_pairs_keys.
  - by rewrite Hperm.
Qed.

Lemma rd_labels_of_order_irrelevant_witness :
  rd_labels_of (ResourceDescriptor.mk [Label.mk "zone" "a"; Label.mk "rack" "r1"])
  = rd_labels_of (ResourceDescriptor.mk [Label.mk "rack" "r1"; Label.mk "zone" "a"]).
Proof.
  apply rd_labels_of_order_irrelevant; simpl.
  - apply (bool_decide_unpack _). vm_compute. exact I.
  - apply Permutation_swap.
Defined.

(** X3. A label whose key already occurs earlier in the list is dead: the
    map is the one built without it, wherever it stands and whatever its
    value. *)
Theorem rd_labels_of_shadowed_label (before after : list Label.t)
    (label : Label.t) :
  Label.key label ∈ (Label.key <$> before) →
  rd_labels_of (ResourceDescriptor.mk (before ++ label :: after))
  = rd_labels_of (ResourceDescriptor.mk (before ++ after)).
Proof.
  intros Hshadow. unfold rd_labels_of; simpl. rewrite !foldl_app. simpl.
  rewrite insert_label_present; [done|].
  rewrite insert_loop_union, (left_id_L ∅ (∪)).
  apply not_eq_None_Some. intros Hnone.
  apply not_elem_of_list_to_map in Hnone. apply Hnone.
  by rewrite label_pairs_keys.
Qed.

Lemma rd_labels_of_shadowed_label_witness :
  rd_labels_of (ResourceDescriptor.mk
                  ([Label.mk "zone" "a"] ++ Label.mk "zone" "b" :: [Label.mk "rack" "r1"]))
  = rd_labels_of (ResourceDescriptor.mk ([Label.mk "zone" "a"] ++ [Label.mk "rack" "r1"])).
Proof.
  apply rd_labels_of_shadowed_label. simpl. apply list_elem_of_here.
Defined.

(** X4. A selector is indifferent to labels on other keys: adding or
    dropping a label whose key is not the selector's key leaves the result of
    the descriptor overload unchanged (fatal outcomes included). *)
Theorem SatisfiesLabelSelector_rd_other_label (before after : list Label.t)
    (label : Label.t) (selector : LabelSelector.t) :
  Label.key label ≠ LabelSelector.key selector →
  SatisfiesLabelSelector_rd (ResourceDescriptor.mk (before ++ label :: after)) selector
  = SatisfiesLabelSelector_rd (ResourceDescriptor.mk (before ++ after)) selector.
Proof.
  intros Hother. unfold SatisfiesLabelSelector_rd.
  apply SatisfiesLabelSelector_map_lookup.
  rewrite !rd_labels_of_list_to_map; simpl.
  rewrite !fmap_app, !list_to_map_app, fmap_cons, list_to_map_cons.
  rewrite !lookup_union. by rewrite lookup_insert_ne.
Qed.

Lemma SatisfiesLabelSelector_rd_other_label_witness :
  SatisfiesLabelSelector_rd
    (ResourceDescriptor.mk ([Label.mk "zone" "a"] ++ Label.mk "rack" "r1" :: []))
    (LabelSelector.mk IN_SET "zone" ["a"])
  = SatisfiesLabelSelector_rd
      (ResourceDescriptor.mk ([Label.mk "zone" "a"] ++ []))
      (LabelSelector.mk IN_SET "zone" ["a"]).
Proof.
  apply SatisfiesLabelSelector_rd_other_label. discriminate.
Defined.

(** ** One selector *)

(** X5. Only the set of a selector's values counts: two value lists with the
    same members, in any order and with any repetitions, give the same
    result for every kind (an unsupported kind is fatal for both). *)
Theorem SatisfiesLabelSelector_map_same_members (rd_labels : gmap string string)
    (type : Z) (k : string) (vs1 vs2 : list string) :
  (∀ v, v ∈ vs1 ↔ v ∈ vs2) →
  SatisfiesLabelSelector_map rd_labels (LabelSelector.mk type k vs1)
  = SatisfiesLabelSelector_map rd_labels (LabelSelector.mk type k vs2).
Proof.
  intros Hsame. unfold SatisfiesLabelSelector_map; simpl.
  assert (Hset : selector_values_of vs1 = selector_values_of vs2).
  { apply set_eq. intros v. rewrite !elem_of_selector_values_of. apply Hsame. }
  rewrite Hset. reflexivity.
Qed.

Lemma SatisfiesLabelSelector_map_same_members_witness :
  SatisfiesLabelSelector_map {[ "zone" := "b" ]}
    (LabelSelector.mk NOT_IN_SET "zone" ["a"; "b"; "a"])
  = SatisfiesLabelSelector_map {[ "zone" := "b" ]}
      (LabelSelector.mk NOT_IN_SET "zone" ["b"; "a"]).
Proof.
  apply SatisfiesLabelSelector_map_same_members.
  intros v. rewrite !elem_of_cons, !elem_of_nil. tauto.
Defined.

(** X6. With an empty value list an IN_SET selector is satisfied by no label
    map and a NOT_IN_SET selector by every label map. *)
Theorem SatisfiesLabelSelector_map_no_values (rd_labels : gmap string string)
    (selector : LabelSelector.t) :
  LabelSelector.values selector = [] →
  (LabelSelector.type selector = IN_SET →
   SatisfiesLabelSelector_map rd_labels selector = Returns false)
  ∧ (LabelSelector.type selector = NOT_IN_SET →
     SatisfiesLabelSelector_map rd_labels selector = Returns true).
Proof.
  intros Hvalues. unfold SatisfiesLabelSelector_map. rewrite Hvalues.
  split; intros Htype.
  - rewrite SatisfiesLabelSelector_IN_SET by done.
    destruct (rd_labels !! LabelSelector.key selector); [|done].
    by rewrite bool_decide_eq_false_2 by apply not_elem_of_empty.
  - rewrite SatisfiesLabelSelector_NOT_IN_SET by done.
    destruct (rd_labels !! LabelSelector.key selector); [|done].
    by rewrite bool_decide_eq_false_2 by apply not_elem_of_empty.
Qed.

Lemma SatisfiesLabelSelector_map_no_values_witness :
  SatisfiesLabelSelector_map {[ "zone" := "a" ]}
    (LabelSelector.mk IN_SET "zone" []) = Returns false.
Proof.
  apply (SatisfiesLabelSelector_map_no_values {[ "zone" := "a" ]}
           (LabelSelector.mk IN_SET "zone" [])); reflexivity.
Defined.

(** X7. The kinds are ordered by strength on a given key: a map that
    satisfies IN_SET satisfies EXISTS_KEY, and a map that satisfies
    NOT_EXISTS_KEY satisfies NOT_IN_SET, for any value sets. *)
Theorem SatisfiesLabelSelector_kind_strength (rd_labels : gmap string string)
    (V V' : gset string) (k : string) (vs vs' : list string) :
  (SatisfiesLabelSelector rd_labels V (LabelSelector.mk IN_SET k vs)
     = Returns true →
   SatisfiesLabelSelector rd_labels V' (LabelSelector.mk EXISTS_KEY k vs')
     = Returns true)
  ∧ (SatisfiesLabelSelector rd_labels V (LabelSelector.mk NOT_EXISTS_KEY k vs)
       = Returns true →
     SatisfiesLabelSelector rd_labels V' (LabelSelector.mk NOT_IN_SET k vs')
       = Returns true).
Proof.
  unfold SatisfiesLabelSelector, FindOrNull, ContainsKey; simpl.
  destruct (rd_labels !! k) as [w|] eqn:Hk; split; intros Hyes.
  - by rewrite bool_decide_eq_true_2 by eauto.
  - rewrite bool_decide_eq_true_2 in Hyes by eauto. discriminate Hyes.
  - discriminate Hyes.
  - reflexivity.
Qed.

Lemma SatisfiesLabelSelector_kind_strength_witness :
  SatisfiesLabelSelector {[ "zone" := "a" ]} ∅
    (LabelSelector.mk EXISTS_KEY "zone" []) = Returns true.
Proof.
  apply (proj1 (SatisfiesLabelSelector_kind_strength {[ "zone" := "a" ]}
                  {[ "a" ]} ∅ "zone" ["a"] [])).
  reflexivity.
Defined.

(** X8. On a resource without labels a selector of a known kind is satisfied
    exactly when it is a negative one (NOT_IN_SET or NOT_EXISTS_KEY). *)
Theorem SatisfiesLabelSelector_rd_no_labels (selector : LabelSelector.t) :
  known_type selector →
  SatisfiesLabelSelector_rd (ResourceDescriptor.mk []) selector
  = Returns (bool_decide (LabelSelector.type selector = NOT_IN_SET
                          ∨ LabelSelector.type selector = NOT_EXISTS_KEY)).
Proof.
  unfold SatisfiesLabelSelector_rd, SatisfiesLabelSelector_map,
    SatisfiesLabelSelector, rd_labels_of, FindOrNull, ContainsKey; simpl.
  rewrite lookup_empty.
  intros [Ht|[Ht|[Ht|Ht]]]; rewrite Ht; reflexivity.
Qed.

Lemma SatisfiesLabelSelector_rd_no_labels_witness :
  SatisfiesLabelSelector_rd (ResourceDescriptor.mk [])
    (LabelSelector.mk NOT_EXISTS_KEY "gpu" [])
  = Returns (bool_decide (NOT_EXISTS_KEY = NOT_IN_SET ∨ NOT_EXISTS_KEY = NOT_EXISTS_KEY)).
Proof.
  apply (SatisfiesLabelSelector_rd_no_labels (LabelSelector.mk NOT_EXISTS_KEY "gpu" [])).
  right; right; right; reflexivity.
Defined.

(** ** A list of selectors *)

(** X9. SatisfiesLabelSelectors is the conjunction of the descriptor
    overload of SatisfiesLabelSelector: over selectors of known kinds it
    returns, and returns true exactly when every selector is satisfied by
    the resource; in particular it returns true on the empty list. *)
Theorem SatisfiesLabelSelectors_conjunction (rd : ResourceDescriptor.t)
    (selectors : list LabelSelector.t) :
  Forall known_type selectors →
  ∃ b, SatisfiesLabelSelectors rd selectors = Returns b
       ∧ (b = true ↔
          ∀ selector, selector ∈ selectors →
                      SatisfiesLabelSelector_rd rd selector = Returns true).
Proof.
  intros Hknown. unfold SatisfiesLabelSelectors, SatisfiesLabelSelector_rd.
  destruct (SatisfiesLabelSelectors_loop_spec (rd_labels_of rd) selectors Hknown)
    as (b & Hb & Hiff).
  exists b. split; [exact Hb|]. by rewrite Hiff, Forall_forall.
Qed.

Lemma SatisfiesLabelSelectors_conjunction_witness :
  ∃ b, SatisfiesLabelSelectors
         (ResourceDescriptor.mk [Label.mk "zone" "a"])
         [LabelSelector.mk EXISTS_KEY "zone" []; LabelSelector.mk IN_SET "zone" ["b"]]
       = Returns b
       ∧ (b = true ↔
          ∀ selector,
            selector ∈ [LabelSelector.mk EXISTS_KEY "zone" [];
                        LabelSelector.mk IN_SET "zone" ["b"]] →
            SatisfiesLabelSelector_rd
              (ResourceDescriptor.mk [Label.mk "zone" "a"]) selector
            = Returns true).
Proof.
  apply SatisfiesLabelSelectors_conjunction.
  constructor; [right; right; left; reflexivity|].
  constructor; [left; reflexivity|constructor].
Defined.

(** X10. Over selectors of known kinds the order of the selectors does not
    matter: the early exit is an optimisation only. *)
Theorem SatisfiesLabelSelectors_order_irrelevant (rd : ResourceDescriptor.t)
    (selectors selectors' : list LabelSelector.t) :
  Forall known_type selectors →
  selectors ≡ₚ selectors' →
  SatisfiesLabelSelectors rd selectors = SatisfiesLabelSelectors rd selectors'.
Proof.
  intros Hknown Hperm. unfold SatisfiesLabelSelectors.
  assert (Hknown' : Forall known_type selectors') by (by rewrite <- Hperm).
  destruct (SatisfiesLabelSelectors_loop_spec (rd_labels_of rd) selectors Hknown)
    as (b & -> & Hiff).
  destruct (SatisfiesLabelSelectors_loop_spec (rd_labels_of rd) selectors' Hknown')
    as (b' & -> & Hiff').
  rewrite <- Hperm in Hiff'. f_equal.
  destruct b, b'; try reflexivity.
  - symmetry. apply Hiff'. by apply Hiff.
  - apply Hiff. by apply Hiff'.
Qed.

Lemma SatisfiesLabelSelectors_order_irrelevant_witness :
  SatisfiesLabelSelectors (ResourceDescriptor.mk [Label.mk "zone" "a"])
    [LabelSelector.mk EXISTS_KEY "zone" []; LabelSelector.mk IN_SET "zone" ["b"]]
  = SatisfiesLabelSelectors (ResourceDescriptor.mk [Label.mk "zone" "a"])
      [LabelSelector.mk IN_SET "zone" ["b"]; LabelSelector.mk EXISTS_KEY "zone" []].
Proof.
  apply SatisfiesLabelSelectors_order_irrelevant.
  - constructor; [right; right; left; reflexivity|].
    constructor; [left; reflexivity|constructor].
  - apply Permutation_swap.
Defined.

(** X11. The first selector that is not satisfied decides: after satisfied
    selectors, a selector that fails makes the call return false whatever
    follows it (even selectors of unsupported kind, which are never looked
    at), and a selector of unsupported kind makes the call fatal whatever
    follows it. With an unsupported kind in the list the order therefore
    matters. *)
Theorem SatisfiesLabelSelectors_first_decides (rd : ResourceDescriptor.t)
    (passed rest : list LabelSelector.t) (selector : LabelSelector.t) :
  Forall (fun s => SatisfiesLabelSelector_rd rd s = Returns true) passed →
  (SatisfiesLabelSelector_rd rd selector = Returns false →
   SatisfiesLabelSelectors rd (passed ++ selector :: rest) = Returns false)
  ∧ (¬ known_type selector →
     SatisfiesLabelSelectors rd (passed ++ selector :: rest)
     = Fatal (LabelSelector.type selector)).
Proof.
  intros Hpassed. unfold SatisfiesLabelSelectors.
  rewrite SatisfiesLabelSelectors_loop_skip by exact Hpassed. simpl.
  split.
  - intros Hfails. unfold SatisfiesLabelSelector_rd in Hfails. by rewrite Hfails.
  - intros Hunknown. unfold SatisfiesLabelSelector_map.
    assert (Hfatal : SatisfiesLabelSelector (rd_labels_of rd)
                       (selector_values_of (LabelSelector.values selector)) selector
                     = Fatal (LabelSelector.type selector)).
    { unfold SatisfiesLabelSelector.
      destruct (LabelSelector.type selector) as [|[[p|p|]|[p|p|]|]|p] eqn:Ht;
        try reflexivity;
        exfalso; apply Hunknown; unfold known_type; rewrite Ht; auto 6. }
    by rewrite Hfatal.
Qed.

Lemma SatisfiesLabelSelectors_first_decides_witness :
  SatisfiesLabelSelectors (ResourceDescriptor.mk [Label.mk "zone" "a"])
    ([LabelSelector.mk EXISTS_KEY "zone" []]
       ++ LabelSelector.mk IN_SET "zone" ["b"] :: [LabelSelector.mk 9 "zone" []])
  = Returns false
  ∧ SatisfiesLabelSelectors (ResourceDescriptor.mk [Label.mk "zone" "a"])
      ([LabelSelector.mk EXISTS_KEY "zone" []]
         ++ LabelSelector.mk 9 "zone" [] :: [LabelSelector.mk IN_SET "zone" ["b"]])
    = Fatal 9.
Proof.
  split.
  - refine (proj1 (SatisfiesLabelSelectors_first_decides
                     (ResourceDescriptor.mk [Label.mk "zone" "a"])
                     [LabelSelector.mk EXISTS_KEY "zone" []]
                     [LabelSelector.mk 9 "zone" []]
                     (LabelSelector.mk IN_SET "zone" ["b"]) _) _).
    + constructor; [reflexivity|constructor].
    + reflexivity.
  - refine (proj2 (SatisfiesLabelSelectors_first_decides
                     (ResourceDescriptor.mk [Label.mk "zone" "a"])
                     [LabelSelector.mk EXISTS_KEY "zone" []]
                     [LabelSelector.mk IN_SET "zone" ["b"]]
                     (LabelSelector.mk 9 "zone" []) _) _).
    + constructor; [reflexivity|constructor].
    + intros [H|[H|[H|H]]]; discriminate H.
Defined.

(** X12. Checking a concatenation is checking the first list and, only if
    it passes, the second: a failure or a fatal outcome of the first list is
    the outcome of the whole. *)
Theorem SatisfiesLabelSelectors_app (rd : ResourceDescriptor.t)
    (selectors1 selectors2 : list LabelSelector.t) :
  SatisfiesLabelSelectors rd (selectors1 ++ selectors2)
  = match SatisfiesLabelSelectors rd selectors1 with
    | Returns true => SatisfiesLabelSelectors rd selectors2
    | Returns false => Returns false
    | Fatal unsupported => Fatal unsupported
    end.
Proof.
  unfold SatisfiesLabelSelectors.
  induction selectors1 as [|selector selectors1 IH]; simpl; [done|].
  destruct (SatisfiesLabelSelector_map (rd_labels_of rd) selector) as [[|]|t];
    simpl; [exact IH|done|done].
Qed.

(** ** Match expressions and node selector terms *)

(** X13. Whatever operator strings the requirements carry, the selectors
    derived from them are all of one of the four kinds: the conversion never
    produces a selector on which SatisfiesLabelSelector would be fatal. *)
Theorem NodeSelectorRequirementsAsLabelSelectors_known
    (matchExpressions : list NodeSelectorRequirement.t) :
  Forall known_type (NodeSelectorRequirementsAsLabelSelectors matchExpressions).
Proof.
  rewrite NodeSelectorRequirementsAsLabelSelectors_map.
  induction matchExpressions as [|nsm rest IH]; simpl; constructor; [|exact IH].
  apply selector_of_requirement_known.
Qed.

Lemma selector_of_requirement_fallback (k op : string) (vs : list string) :
  op ∉ ["In"; "NotIn"; "Exists"; "DoesNotExist"] →
  selector_of_requirement (NodeSelectorRequirement.mk k op vs)
  = selector_of_requirement (NodeSelectorRequirement.mk k "In" vs).
Proof.
  intros Hother. unfold selector_of_requirement; simpl.
  destruct (String.eqb_spec op "In") as [Heq|_]; [reflexivity|].
  destruct (String.eqb_spec op "NotIn")
    as [Heq|_]; [exfalso; apply Hother; rewrite Heq; repeat constructor|].
  destruct (String.eqb_spec op "Exists")
    as [Heq|_]; [exfalso; apply Hother; rewrite Heq; repeat constructor|].
  destruct (String.eqb_spec op "DoesNotExist")
    as [Heq|_]; [exfalso; apply Hother; rewrite Heq; repeat constructor|].
  reflexivity.
Qed.

(** X14. A requirement with an unrecognised operator string is not rejected
    but evaluated as if its operator were "In": replacing the operator by
    "In" anywhere in a list of match expressions leaves the result
    unchanged. *)
Theorem SatisfiesMatchExpressions_unknown_operator (rd : ResourceDescriptor.t)
    (before after : list NodeSelectorRequirement.t) (k op : string)
    (vs : list string) :
  op ∉ ["In"; "NotIn"; "Exists"; "DoesNotExist"] →
  SatisfiesMatchExpressions rd
    (before ++ NodeSelectorRequirement.mk k op vs :: after)
  = SatisfiesMatchExpressions rd
      (before ++ NodeSelectorRequirement.mk k "In" vs :: after).
Proof.
  intros Hother. unfold SatisfiesMatchExpressions.
  rewrite !NodeSelectorRequirementsAsLabelSelectors_map, !map_app. simpl.
  by rewrite selector_of_requirement_fallback.
Qed.

Lemma SatisfiesMatchExpressions_unknown_operator_witness :
  SatisfiesMatchExpressions (ResourceDescriptor.mk [Label.mk "zone" "a"])
    ([] ++ NodeSelectorRequirement.mk "zone" "notin" ["a"] :: [])
  = SatisfiesMatchExpressions (ResourceDescriptor.mk [Label.mk "zone" "a"])
      ([] ++ NodeSelectorRequirement.mk "zone" "In" ["a"] :: []).
Proof.
  apply SatisfiesMatchExpressions_unknown_operator.
  intros Hin. repeat (apply elem_of_cons in Hin as [Hin|Hin]; [discriminate Hin|]).
  by apply elem_of_nil in Hin.
Defined.

(** X15. SatisfiesMatchExpressions always returns, and returns true exactly
    when the resource satisfies the selector of every requirement; on an
    empty list of requirements it returns true (it is its caller that
    rejects an empty term). *)
Theorem SatisfiesMatchExpressions_conjunction (rd : ResourceDescriptor.t)
    (matchExpressions : list NodeSelectorRequirement.t) :
  (∃ b, SatisfiesMatchExpressions rd matchExpressions = Returns b
        ∧ (b = true ↔
           ∀ nsm, nsm ∈ matchExpressions →
                  SatisfiesLabelSelector_rd rd (selector_of_requirement nsm)
                  = Returns true))
  ∧ SatisfiesMatchExpressions rd [] = Returns true.
Proof.
  split; [|reflexivity].
  unfold SatisfiesMatchExpressions, SatisfiesLabelSelectors, SatisfiesLabelSelector_rd.
  destruct (SatisfiesLabelSelectors_loop_spec (rd_labels_of rd)
              (NodeSelectorRequirementsAsLabelSelectors matchExpressions))
    as (b & Hb & Hiff).
  - rewrite NodeSelectorRequirementsAsLabelSelectors_map.
    apply Forall_forall. intros selector Hin.
    apply list_elem_of_fmap in Hin as (nsm & -> & _).
    apply selector_of_requirement_known.
  - exists b. split; [exact Hb|]. rewrite Hiff.
    rewrite NodeSelectorRequirementsAsLabelSelectors_map, Forall_forall. split.
    + intros Hall nsm Hnsm. apply Hall.
      by apply (list_elem_of_fmap_2 selector_of_requirement).
    + intros Hall selector Hin.
      apply list_elem_of_fmap in Hin as (nsm & -> & Hnsm). by apply Hall.
Qed.

(** X16. NodeMatchesNodeSelectorTerms always returns, and it returns true
    exactly when NodeMatchesNodeSelectorTerm returns true on one of the
    terms: the loop, which repeats the test of the single-term function
    instead of calling it, agrees with it. *)
Theorem NodeMatchesNodeSelectorTerms_disjunction (rd : ResourceDescriptor.t)
    (terms : list NodeSelectorTerm.t) :
  ∃ b, NodeMatchesNodeSelectorTerms rd terms = Returns b
       ∧ (b = true ↔
          ∃ term, term ∈ terms
                  ∧ NodeMatchesNodeSelectorTerm rd term = Returns true).
Proof.
  destruct (NodeMatchesNodeSelectorTerms_spec rd terms) as (b & Hb & Hiff).
  exists b. split; [exact Hb|]. by rewrite Hiff, Exists_exists.
Qed.

(** X17. The order of the terms does not matter. *)
Theorem NodeMatchesNodeSelectorTerms_order_irrelevant (rd : ResourceDescriptor.t)
    (terms terms' : list NodeSelectorTerm.t) :
  terms ≡ₚ terms' →
  NodeMatchesNodeSelectorTerms rd terms = NodeMatchesNodeSelectorTerms rd terms'.
Proof.
  intros Hperm.
  destruct (NodeMatchesNodeSelectorTerms_spec rd terms) as (b & -> & Hiff).
  destruct (NodeMatchesNodeSelectorTerms_spec rd terms') as (b' & -> & Hiff').
  rewrite <- Hperm in Hiff'. f_equal.
  destruct b, b'; try reflexivity.
  - symmetry. apply Hiff'. by apply Hiff.
  - apply Hiff. by apply Hiff'.
Qed.

Lemma NodeMatchesNodeSelectorTerms_order_irrelevant_witness :
  NodeMatchesNodeSelectorTerms (ResourceDescriptor.mk [Label.mk "zone" "a"])
    [NodeSelectorTerm.mk [];
     NodeSelectorTerm.mk [NodeSelectorRequirement.mk "zone" "Exists" []]]
  = NodeMatchesNodeSelectorTerms (ResourceDescriptor.mk [Label.mk "zone" "a"])
      [NodeSelectorTerm.mk [NodeSelectorRequirement.mk "zone" "Exists" []];
       NodeSelectorTerm.mk []].
Proof.
  apply NodeMatchesNodeSelectorTerms_order_irrelevant. apply Permutation_swap.
Defined.

(** X18. Terms only widen a match: a term list that matches still matches
    with further terms put before or after it. *)
Theorem NodeMatchesNodeSelectorTerms_monotone (rd : ResourceDescriptor.t)
    (before terms after : list NodeSelectorTerm.t) :
  NodeMatchesNodeSelectorTerms rd terms = Returns true →
  NodeMatchesNodeSelectorTerms rd (before ++ terms ++ after) = Returns true.
Proof.
  intros Hmatch.
  destruct (NodeMatchesNodeSelectorTerms_spec rd terms) as (b & Hb & Hiff).
  destruct (NodeMatchesNodeSelectorTerms_spec rd (before ++ terms ++ after))
    as (b' & -> & Hiff').
  f_equal. apply Hiff'. rewrite !Exists_app. right; left.
  apply Hiff. congruence.
Qed.

Lemma NodeMatchesNodeSelectorTerms_monotone_witness :
  NodeMatchesNodeSelectorTerms (ResourceDescriptor.mk [Label.mk "zone" "a"])
    ([NodeSelectorTerm.mk [NodeSelectorRequirement.mk "gpu" "Exists" []]]
       ++ [NodeSelectorTerm.mk [NodeSelectorRequirement.mk "zone" "In" ["a"]]]
       ++ [NodeSelectorTerm.mk []])
  = Returns true.
Proof.
  apply NodeMatchesNodeSelectorTerms_monotone. reflexivity.
Defined.

(** ** The placement predicate *)

Lemma SatisfiesLabelSelectors_loop_true (rd_labels : gmap string string)
    (selectors : list LabelSelector.t) :
  SatisfiesLabelSelectors_loop rd_labels selectors = Returns true
  ↔ Forall (fun selector =>
              SatisfiesLabelSelector_map rd_labels selector = Returns true)
           selectors.
Proof.
  split.
  - induction selectors as [|selector rest IH]; simpl; [by constructor|].
    destruct (SatisfiesLabelSelector_map rd_labels selector) as [[|]|t] eqn:Hsel;
      simpl; [|discriminate|discriminate].
    intros Hrest. constructor; [exact Hsel|by apply IH].
  - intros Hall.
    rewrite <- (app_nil_r selectors).
    by rewrite SatisfiesLabelSelectors_loop_skip.
Qed.

(** The guarded selector check at the head of the predicate. *)
Lemma selector_gate_true (rd : ResourceDescriptor.t)
    (selectors : list LabelSelector.t) :
  (if bool_decide (length selectors ≠ 0%nat)
   then SatisfiesLabelSelectors rd selectors else Returns true) = Returns true
  ↔ Forall (fun selector => SatisfiesLabelSelector_rd rd selector = Returns true)
           selectors.
Proof.
  destruct selectors as [|selector rest].
  - simpl. split; [by constructor|done].
  - rewrite bool_decide_eq_true_2 by done.
    apply SatisfiesLabelSelectors_loop_true.
Qed.

Lemma selector_gate_returns (rd : ResourceDescriptor.t)
    (selectors : list LabelSelector.t) :
  Forall known_type selectors →
  ∃ b, (if bool_decide (length selectors ≠ 0%nat)
        then SatisfiesLabelSelectors rd selectors else Returns true) = Returns b.
Proof.
  intros Hknown. case_bool_decide; [|by exists true].
  destruct (SatisfiesLabelSelectors_loop_spec (rd_labels_of rd) selectors Hknown)
    as (b & Hb & _).
  by exists b.
Qed.

(** X19. The predicate can only be fatal through the task's own label
    selectors: when these are of known kinds it returns a boolean, whatever
    the affinity holds (operator strings included). *)
Theorem SatisfiesNodeSelectorAndNodeAffinity_returns (rd : ResourceDescriptor.t)
    (td : TaskDescriptor.t) :
  Forall known_type (TaskDescriptor.label_selectors td) →
  ∃ b, SatisfiesNodeSelectorAndNodeAffinity rd td = Returns b.
Proof.
  intros Hknown. unfold SatisfiesNodeSelectorAndNodeAffinity.
  destruct (selector_gate_returns rd _ Hknown) as [ok ->]. simpl.
  destruct ok; simpl; [|by eauto].
  destruct (TaskDescriptor.affinity td) as [affinity|]; [|by eauto].
  destruct (Affinity.node_affinity affinity) as [node_affinity|]; [|by eauto].
  destruct (NodeAffinity.requiredduringschedulingignoredduringexecution node_affinity)
    as [required|]; [|by eauto].
  case_bool_decide; [|by eauto].
  destruct (NodeMatchesNodeSelectorTerms_spec rd
              (NodeSelector.nodeselectorterms required)) as (m & -> & _).
  simpl. by eauto.
Qed.

Lemma SatisfiesNodeSelectorAndNodeAffinity_returns_witness :
  ∃ b, SatisfiesNodeSelectorAndNodeAffinity
         (ResourceDescriptor.mk [Label.mk "zone" "a"])
         (TaskDescriptor.mk [LabelSelector.mk IN_SET "zone" ["a"]]
            (Some (Affinity.mk (Some (NodeAffinity.mk (Some (NodeSelector.mk
               [NodeSelectorTerm.mk
                  [NodeSelectorRequirement.mk "zone" "Gt" ["1"]]])))))))
       = Returns b.
Proof.
  apply SatisfiesNodeSelectorAndNodeAffinity_returns.
  constructor; [left; reflexivity|constructor].
Defined.

(** X20. With a required term list that is not empty, the predicate returns
    true exactly when the resource satisfies every label selector of the
    task and matches at least one of the required terms. *)
Theorem SatisfiesNodeSelectorAndNodeAffinity_required (rd : ResourceDescriptor.t)
    (td : TaskDescriptor.t) (affinity : Affinity.t)
    (node_affinity : NodeAffinity.t) (required : NodeSelector.t) :
  TaskDescriptor.affinity td = Some affinity →
  Affinity.node_affinity affinity = Some node_affinity →
  NodeAffinity.requiredduringschedulingignoredduringexecution node_affinity
    = Some required →
  NodeSelector.nodeselectorterms required ≠ [] →
  SatisfiesNodeSelectorAndNodeAffinity rd td = Returns true
  ↔ (∀ selector, selector ∈ TaskDescriptor.label_selectors td →
                 SatisfiesLabelSelector_rd rd selector = Returns true)
    ∧ (∃ term, term ∈ NodeSelector.nodeselectorterms required
               ∧ NodeMatchesNodeSelectorTerm rd term = Returns true).
Proof.
  intros Haff Hnode Hreq Hterms.
  rewrite <- Forall_forall, <- selector_gate_true, <- Exists_exists.
  unfold SatisfiesNodeSelectorAndNodeAffinity.
  rewrite Haff, Hnode, Hreq.
  rewrite (bool_decide_eq_true_2 (length (NodeSelector.nodeselectorterms required) ≠ 0%nat))
    by (by destruct (NodeSelector.nodeselectorterms required)).
  destruct (NodeMatchesNodeSelectorTerms_spec rd
              (NodeSelector.nodeselectorterms required)) as (m & -> & Hm).
  rewrite <- Hm.
  destruct (if bool_decide (length (TaskDescriptor.label_selectors td) ≠ 0%nat)
            then SatisfiesLabelSelectors rd (TaskDescriptor.label_selectors td)
            else Returns true) as [[|]|t]; simpl.
  - split; [by intros [= ->]|by intros [_ ->]].
  - split; [discriminate|by intros [? _]].
  - split; [discriminate|by intros [? _]].
Qed.

Lemma SatisfiesNodeSelectorAndNodeAffinity_required_witness :
  SatisfiesNodeSelectorAndNodeAffinity
    (ResourceDescriptor.mk [Label.mk "zone" "a"])
    (TaskDescriptor.mk []
       (Some (Affinity.mk (Some (NodeAffinity.mk (Some (NodeSelector.mk
          [NodeSelectorTerm.mk
             [NodeSelectorRequirement.mk "zone" "In" ["a"]]])))))))
  = Returns true.
Proof.
  apply (SatisfiesNodeSelectorAndNodeAffinity_required
           (ResourceDescriptor.mk [Label.mk "zone" "a"])
           (TaskDescriptor.mk []
              (Some (Affinity.mk (Some (NodeAffinity.mk (Some (NodeSelector.mk
                 [NodeSelectorTerm.mk
                    [NodeSelectorRequirement.mk "zone" "In" ["a"]]])))))))
           (Affinity.mk (Some (NodeAffinity.mk (Some (NodeSelector.mk
              [NodeSelectorTerm.mk
                 [NodeSelectorRequirement.mk "zone" "In" ["a"]]])))))
           (NodeAffinity.mk (Some (NodeSelector.mk
              [NodeSelectorTerm.mk
                 [NodeSelectorRequirement.mk "zone" "In" ["a"]]])))
           (NodeSelector.mk
              [NodeSelectorTerm.mk
                 [NodeSelectorRequirement.mk "zone" "In" ["a"]]])
           eq_refl eq_refl eq_refl).
  - discriminate.
  - split.
    + intros selector Hin. by apply elem_of_nil in Hin.
    + exists (NodeSelectorTerm.mk [NodeSelectorRequirement.mk "zone" "In" ["a"]]).
      split; [apply list_elem_of_here|reflexivity].
Defined.

(** X21. Without a required field (no affinity at all, an affinity without
    node affinity, or a node affinity without the required field) the
    affinity puts no constraint: the predicate yields what the label-selector
    check yields on the task's selectors. *)
Theorem SatisfiesNodeSelectorAndNodeAffinity_no_required (rd : ResourceDescriptor.t)
    (td : TaskDescriptor.t) :
  (TaskDescriptor.affinity td = None
   ∨ (∃ affinity, TaskDescriptor.affinity td = Some affinity
                  ∧ Affinity.node_affinity affinity = None)
   ∨ (∃ affinity node_affinity,
        TaskDescriptor.affinity td = Some affinity
        ∧ Affinity.node_affinity affinity = Some node_affinity
        ∧ NodeAffinity.requiredduringschedulingignoredduringexecution node_affinity
          = None)) →
  SatisfiesNodeSelectorAndNodeAffinity rd td
  = SatisfiesLabelSelectors rd (TaskDescriptor.label_selectors td).
Proof.
  intros Hcase.
  assert (Hgate : (if bool_decide (length (TaskDescriptor.label_selectors td) ≠ 0%nat)
                   then SatisfiesLabelSelectors rd (TaskDescriptor.label_selectors td)
                   else Returns true)
                  = SatisfiesLabelSelectors rd (TaskDescriptor.label_selectors td)).
  { by destruct (TaskDescriptor.label_selectors td). }
  unfold SatisfiesNodeSelectorAndNodeAffinity. rewrite Hgate.
  destruct Hcase as [Hnone|[(affinity & Haff & Hnode)
                           |(affinity & node_affinity & Haff & Hnode & Hreq)]].
  - rewrite Hnone.
    by destruct (SatisfiesLabelSelectors rd (TaskDescriptor.label_selectors td))
      as [[|]|].
  - rewrite Haff, Hnode.
    by destruct (SatisfiesLabelSelectors rd (TaskDescriptor.label_selectors td))
      as [[|]|].
  - rewrite Haff, Hnode, Hreq.
    by destruct (SatisfiesLabelSelectors rd (TaskDescriptor.label_selectors td))
      as [[|]|].
Qed.

Lemma SatisfiesNodeSelectorAndNodeAffinity_no_required_witness :
  SatisfiesNodeSelectorAndNodeAffinity
    (ResourceDescriptor.mk [Label.mk "zone" "a"])
    (TaskDescriptor.mk [LabelSelector.mk NOT_EXISTS_KEY "zone" []]
       (Some (Affinity.mk None)))
  = SatisfiesLabelSelectors
      (ResourceDescriptor.mk [Label.mk "zone" "a"])
      [LabelSelector.mk NOT_EXISTS_KEY "zone" []].
Proof.
  apply (SatisfiesNodeSelectorAndNodeAffinity_no_required
           (ResourceDescriptor.mk [Label.mk "zone" "a"])
           (TaskDescriptor.mk [LabelSelector.mk NOT_EXISTS_KEY "zone" []]
              (Some (Affinity.mk None)))).
  right; left. exists (Affinity.mk None). split; reflexivity.
Defined.

(** X22. Label selectors only narrow: a resource accepted for a task is
    still accepted for a task with the same affinity whose label selectors
    are all among those of the first task. *)
Theorem SatisfiesNodeSelectorAndNodeAffinity_fewer_selectors
    (rd : ResourceDescriptor.t) (selectors fewer : list LabelSelector.t)
    (affinity : option Affinity.t) :
  (∀ selector, selector ∈ fewer → selector ∈ selectors) →
  SatisfiesNodeSelectorAndNodeAffinity rd
    (TaskDescriptor.mk selectors affinity) = Returns true →
  SatisfiesNodeSelectorAndNodeAffinity rd
    (TaskDescriptor.mk fewer affinity) = Returns true.
Proof.
  intros Hsub. unfold SatisfiesNodeSelectorAndNodeAffinity; simpl.
  destruct (if bool_decide (length selectors ≠ 0%nat)
            then SatisfiesLabelSelectors rd selectors
            else Returns true) as [[|]|t] eqn:Hgate; simpl;
    [|discriminate|discriminate].
  apply selector_gate_true in Hgate.
  assert (Hfewer : Forall (fun selector =>
                             SatisfiesLabelSelector_rd rd selector = Returns true)
                          fewer).
  { rewrite Forall_forall in Hgate. apply Forall_forall.
    intros selector Hin. by apply Hgate, Hsub. }
  apply selector_gate_true in Hfewer. by rewrite Hfewer.
Qed.

Lemma SatisfiesNodeSelectorAndNodeAffinity_fewer_selectors_witness :
  SatisfiesNodeSelectorAndNodeAffinity
    (ResourceDescriptor.mk [Label.mk "zone" "a"])
    (TaskDescriptor.mk [LabelSelector.mk IN_SET "zone" ["a"]] None)
  = Returns true.
Proof.
  apply (SatisfiesNodeSelectorAndNodeAffinity_fewer_selectors
           (ResourceDescriptor.mk [Label.mk "zone" "a"])
           [LabelSelector.mk EXISTS_KEY "zone" [];
            LabelSelector.mk IN_SET "zone" ["a"]]
           [LabelSelector.mk IN_SET "zone" ["a"]] None).
  - intros selector Hin. by apply list_elem_of_further.
  - reflexivity.
Defined.

(** X23. Required terms only widen, once there is one: a resource accepted
    under a required term list that is not empty is still accepted when
    terms are added to the list. *)
Theorem SatisfiesNodeSelectorAndNodeAffinity_more_terms
    (rd : ResourceDescriptor.t) (selectors : list LabelSelector.t)
    (terms more : list NodeSelectorTerm.t) :
  terms ≠ [] →
  SatisfiesNodeSelectorAndNodeAffinity rd
    (TaskDescriptor.mk selectors
       (Some (Affinity.mk (Some (NodeAffinity.mk (Some (NodeSelector.mk terms)))))))
    = Returns true →
  SatisfiesNodeSelectorAndNodeAffinity rd
    (TaskDescriptor.mk selectors
       (Some (Affinity.mk (Some (NodeAffinity.mk
          (Some (NodeSelector.mk (terms ++ more))))))))
    = Returns true.
Proof.
  intros Hterms. unfold SatisfiesNodeSelectorAndNodeAffinity; simpl.
  destruct (if bool_decide (length selectors ≠ 0%nat)
            then SatisfiesLabelSelectors rd selectors
            else Returns true) as [[|]|t]; simpl; [|discriminate|discriminate].
  rewrite (bool_decide_eq_true_2 (length terms ≠ 0%nat))
    by (by destruct terms).
  rewrite (bool_decide_eq_true_2 (length (terms ++ more) ≠ 0%nat))
    by (by destruct terms).
  destruct (NodeMatchesNodeSelectorTerms_spec rd terms) as (m & -> & Hm).
  destruct (NodeMatchesNodeSelectorTerms_spec rd (terms ++ more))
    as (m' & -> & Hm').
  simpl. intros [= ->]. f_equal. apply Hm'. rewrite Exists_app. left.
  by apply Hm.
Qed.

Lemma SatisfiesNodeSelectorAndNodeAffinity_more_terms_witness :
  SatisfiesNodeSelectorAndNodeAffinity
    (ResourceDescriptor.mk [Label.mk "zone" "a"])
    (TaskDescriptor.mk []
       (Some (Affinity.mk (Some (NodeAffinity.mk (Some (NodeSelector.mk
          ([NodeSelectorTerm.mk [NodeSelectorRequirement.mk "zone" "Exists" []]]
             ++ [NodeSelectorTerm.mk
                   [NodeSelectorRequirement.mk "gpu" "Exists" []]]))))))))
  = Returns true.
Proof.
  apply SatisfiesNodeSelectorAndNodeAffinity_more_terms.
  - discriminate.
  - reflexivity.
Defined.

(** ** What HashSelectors reads *)

Section HashingStream.
Variable HashString : string → Z.
Variable hash_combine : Z → Z → Z.

Lemma HashSelectors_loop_stream (selectors : list LabelSelector.t) (seed : Z) :
  foldl (fun seed label_selector =>
           let seed := hash_combine seed (HashString (LabelSelector.key label_selector)) in
           foldl (fun seed value => hash_combine seed (HashString value))
                 seed (LabelSelector.values label_selector))
        seed selectors
  = foldl (fun seed s => hash_combine seed (HashString s)) seed
      (concat (map (fun label_selector =>
                      LabelSelector.key label_selector
                      :: LabelSelector.values label_selector)
                   selectors)).
Proof.
  revert seed. induction selectors as [|label_selector rest IH]; intros seed;
    simpl; [reflexivity|].
  rewrite foldl_app. apply IH.
Qed.

(** X24. HashSelectors is the left fold of hash_combine, from seed 0, over
    the strings key, value, ..., value of each selector in turn: the hash
    sees one flat sequence of strings, with nothing that marks where a
    selector ends or which string is a key. *)
Theorem HashSelectors_flat_stream (selectors : list LabelSelector.t) :
  HashSelectors HashString hash_combine selectors
  = foldl (fun seed s => hash_combine seed (HashString s)) 0
      (concat (map (fun label_selector =>
                      LabelSelector.key label_selector
                      :: LabelSelector.values label_selector)
                   selectors)).
Proof. unfold HashSelectors. apply HashSelectors_loop_stream. Qed.

(** X25. Cutting a selector in two at any of its values, the value becoming
    the key of a new selector of any kind that takes the values after it,
    does not change the hash. *)
Theorem HashSelectors_split_selector (before after : list LabelSelector.t)
    (type type' : Z) (k v : string) (vs ws : list string) :
  HashSelectors HashString hash_combine
    (before ++ LabelSelector.mk type k (vs ++ v :: ws) :: after)
  = HashSelectors HashString hash_combine
      (before ++ LabelSelector.mk type k vs :: LabelSelector.mk type' v ws :: after).
Proof.
  unfold HashSelectors. rewrite !HashSelectors_loop_stream.
  rewrite !map_app, !concat_app. simpl.
  by rewrite <- !app_assoc.
Qed.

End HashingStream.

Example split_selector_run :
  HashSelectors poly_hash_string boost_hash_combine
    [LabelSelector.mk IN_SET "zone" ["a"; "rack"; "r1"]]
  = HashSelectors poly_hash_string boost_hash_combine
      [LabelSelector.mk IN_SET "zone" ["a"]; LabelSelector.mk NOT_IN_SET "rack" ["r1"]].
Proof. reflexivity. Qed.
